(** * Ruler core of Cortex: alert forwarding, ring ownership, per-tenant
    notifiers, shutdown order, and the GCS-backed rule/alert config store.

    Shallow embedding of [pkg/ruler/ruler.go] (sendAlerts,
    getOrCreateNotifier, ownsRule, Stop) and [pkg/ruler/store/gcp]
    (generateRuleHandle, Set/Get/DeleteRuleGroup, getAlertConfig). *)

From Stdlib Require Import List ZArith String Permutation Sorted.
From stdpp Require Import base gmap strings list fin_maps.
Import ListNotations.

Local Open Scope Z_scope.

(* ------------------------------------------------------------------ *)
(** ** Shared Go-level data *)

(** Go's [time.Time], as nanoseconds since 0001-01-01 00:00:00 UTC; the
    zero value [time.Time{}] is [0], so [t.IsZero()] is [t =? 0]. *)
Definition time := Z.
Definition time_zero : time := 0.
Definition IsZero (t : time) : bool := Z.eqb t 0.

(** [labels.Labels]: an ordered slice of name/value pairs. *)
Definition Labels := list (string * string).

(** Go's [error] values, as the messages they carry. *)
Definition error := string.

(** A Go [(T, error)] result pair where exactly one side is meaningful. *)
Inductive result (A : Type) :=
| Ok (a : A)
| Err (e : error).
Arguments Ok {A} a.
Arguments Err {A} e.

(* ------------------------------------------------------------------ *)
(** ** sendAlerts *)
Module SendAlerts.

(** [rules.AlertState] *)
Inductive AlertState := StateInactive | StatePending | StateFiring.

Definition AlertState_eqb (a b : AlertState) : bool :=
  match a, b with
  | StateInactive, StateInactive | StatePending, StatePending
  | StateFiring, StateFiring => true
  | _, _ => false
  end.

(** [rules.Alert] (the float [Value] field is not read by sendAlerts and
    is left out). *)
Record Alert := {
  State : AlertState;
  A_Labels : Labels;
  A_Annotations : Labels;
  ActiveAt : time;
  FiredAt : time;
  ResolvedAt : time;
}.

(** [notifier.Alert] *)
Record NAlert := {
  N_Labels : Labels;
  N_Annotations : Labels;
  StartsAt : time;
  EndsAt : time;
  GeneratorURL : string;
}.

(** A [*notifier.Manager], identified by its heap address. *)
Definition Manager := nat.

(** The effect of [n.Send(as...)] observable here: the log of Send
    invocations, each with the manager it targets and its batch. *)
Definition SendLog := list (Manager * list NAlert).

Definition Send (n : Manager) (batch : list NAlert) (log : SendLog) : SendLog :=
  log ++ [(n, batch)].

Section Transform.
  (** [strutil.TableLinkForExpression] from the Prometheus library. *)
Variable TableLinkForExpression : string -> string.

  (** The loop body of the closure, for one alert. *)
Definition convert (externalURL expr : string) (alert : Alert) : NAlert :=
    {| StartsAt := FiredAt alert;
       N_Labels := A_Labels alert;
       N_Annotations := A_Annotations alert;
       GeneratorURL := (externalURL ++ TableLinkForExpression expr)%string;
       (* [if !alert.ResolvedAt.IsZero() { a.EndsAt = alert.ResolvedAt }] *)
       EndsAt := if negb (IsZero (ResolvedAt alert)) then ResolvedAt alert
                 else time_zero |}.

  (** [for _, alert := range alerts { if pending { continue }; ...;
      res = append(res, a) }] *)
Fixpoint build_res (externalURL expr : string) (alerts : list Alert)
    : list NAlert :=
    match alerts with
    | [] => []
    | alert :: rest =>
        if AlertState_eqb (State alert) StatePending
        then build_res externalURL expr rest
        else convert externalURL expr alert :: build_res externalURL expr rest
    end.

  (** [sendAlerts(n, externalURL)] applied to [(ctx, expr, alerts...)]:
      the closure body, threading the Send log. *)
Definition sendAlerts (n : Manager) (externalURL : string)
      (expr : string) (alerts : list Alert) (log : SendLog) : SendLog :=
    let res := build_res externalURL expr alerts in
    if Nat.ltb 0 (length alerts) then Send n res log else log.
End Transform.

End SendAlerts.

(* ------------------------------------------------------------------ *)
(** ** Ruler state *)

(** [ring.IngesterDesc] (only the address is read here). *)
Record IngesterDesc := { Addr : string }.

(** [ring.ReplicationSet] *)
Record ReplicationSet := { Ingesters : list IngesterDesc; MaxErrors : nat }.

(** [ring.Operation] *)
Inductive Operation := Read | Write | Reporting.

(** [rulerNotifier]: the per-tenant wrapper around a [*notifier.Manager]. *)
Record rulerNotifier := { notifier : SendAlerts.Manager }.

(** The fields of [Ruler] the claims are about. [ring_Get] is the ring
    client's [Get(key, op)], [lifecycler_Addr] the address this replica
    advertises. *)
Record Ruler := {
  EnableSharding : bool;
  ring_Get : Z -> Operation -> result ReplicationSet;
  lifecycler_Addr : string;
}.

(** Mutable process state: the [notifiers] map of the Ruler, the
    package-level [ringCheckErrors] counter, the next fresh heap address,
    and the notifiers whose [run] goroutine was started. *)
Record RulerState := {
  notifiers : gmap string rulerNotifier;
  ringCheckErrors : nat;
  heap_next : nat;
  started_loops : list SendAlerts.Manager;
}.

(* ------------------------------------------------------------------ *)
(** ** ownsRule *)
Module Ownership.

(** Outcome of a Go call that returns a bool or panics. *)
Inductive outcome :=
| Returns (b : bool)
| PanicIndexOutOfRange.

Definition incRingCheckErrors (st : RulerState) : RulerState :=
  {| notifiers := notifiers st; ringCheckErrors := S (ringCheckErrors st);
     heap_next := heap_next st; started_loops := started_loops st |}.

(** [func (r *Ruler) ownsRule(hash uint32) bool]; [rlrs.Ingesters[0]]
    panics on an empty slice. *)
Definition ownsRule (r : Ruler) (hash : Z) (st : RulerState) : outcome * RulerState :=
  match ring_Get r hash Read with
  | Err _ => (Returns true, incRingCheckErrors st)
  | Ok rlrs =>
      match nth_error (Ingesters rlrs) 0 with
      | None => (PanicIndexOutOfRange, st)
      | Some first =>
          if String.eqb (Addr first) (lifecycler_Addr r)
          then (Returns true, st)
          else (Returns false, st)
      end
  end.

End Ownership.

(* ------------------------------------------------------------------ *)
(** ** getOrCreateNotifier *)
Module Notifiers.

(** [newRulerNotifier(...)] followed by [go n.run()]: allocate a fresh
    manager and start its send loop. *)
Definition newRulerNotifier (st : RulerState) : rulerNotifier * RulerState :=
  let n := {| notifier := heap_next st |} in
  (n, {| notifiers := notifiers st; ringCheckErrors := ringCheckErrors st;
         heap_next := S (heap_next st);
         started_loops := started_loops st ++ [notifier n] |}).

(** [func (r *Ruler) getOrCreateNotifier(userID string)]. The whole body
    runs under [notifiersMtx], so calls are atomic with respect to each
    other. [applyConfig] is what [n.applyConfig(r.notifierCfg)] returns
    at this call ([None] for a nil error). *)
Definition getOrCreateNotifier (userID : string) (applyConfig : option error)
    (st : RulerState) : result SendAlerts.Manager * RulerState :=
  match notifiers st !! userID with
  | Some n => (Ok (notifier n), st)
  | None =>
      let (n, st1) := newRulerNotifier st in
      match applyConfig with
      | Some err => (Err err, st1)
      | None =>
          (Ok (notifier n),
           {| notifiers := <[userID := n]> (notifiers st1);
              ringCheckErrors := ringCheckErrors st1;
              heap_next := heap_next st1;
              started_loops := started_loops st1 |})
      end
  end.

(** A sequence of calls, each with its tenant and the
    [applyConfig] outcome it would meet; returns each call's result. *)
Fixpoint run_calls (calls : list (string * option error)) (st : RulerState)
    : list (string * result SendAlerts.Manager) * RulerState :=
  match calls with
  | [] => ([], st)
  | (u, ac) :: rest =>
      let (res, st1) := getOrCreateNotifier u ac st in
      let (ress, st2) := run_calls rest st1 in
      ((u, res) :: ress, st2)
  end.

End Notifiers.

(* ------------------------------------------------------------------ *)
(** ** Stop *)
Module Shutdown.

(** The blocking calls [Stop] makes, in the order it makes them. Each Go
    call returns only after the callee has finished, so a later event
    begins after the earlier one has completed. *)
Inductive Event :=
| NotifierStop (m : SendAlerts.Manager)  (* n.stop() *)
| SchedulerStop                           (* r.scheduler.Stop() *)
| WorkersWait                             (* r.workerWG.Wait() *)
| LifecyclerShutdown                      (* r.lifecycler.Shutdown() *)
| RingStop.                               (* r.ring.Stop() *)

(** [func (r *Ruler) Stop()]. [iter] is the order in which Go's
    [range r.notifiers] visits the map; Go leaves it unspecified, so it
    is an input (any permutation of the map's entries). *)
Definition Stop (r : Ruler) (iter : list (string * rulerNotifier)) : list Event :=
  map (fun kv => NotifierStop (notifier kv.2)) iter
  ++ [SchedulerStop]
  ++ [WorkersWait]
  ++ (if EnableSharding r then [LifecyclerShutdown; RingStop] else []).

Definition is_NotifierStop (e : Event) : bool :=
  match e with NotifierStop _ => true | _ => false end.

End Shutdown.

(* ------------------------------------------------------------------ *)
(** ** GCS rule and alert-config store *)
Module GCS.

Definition alertPrefix : string := "alerts/".
Definition rulePrefix : string := "rules/".

(** [func generateRuleHandle(id, namespace, name string) string] *)
Definition generateRuleHandle (id namespace name : string) : string :=
  match id with
  | EmptyString => rulePrefix
  | _ =>
      let prefix := (rulePrefix ++ id ++ "/")%string in
      match namespace with
      | EmptyString => prefix
      | _ => (prefix ++ namespace ++ "/" ++ name)%string
      end
  end.

Definition bytes := list Byte.byte.

(** The errors of the GCS client: [gstorage.ErrObjectNotExist] or any
    other failure of the call. *)
Inductive GErr := ErrObjectNotExist | ErrOther (msg : string).

(** The bucket: stored objects, and the names whose access fails for a
    reason other than absence (network, permissions). *)
Record Bucket := {
  objects : gmap string bytes;
  failing : gset string;
}.

(** [bucket.Object(name).NewReader(ctx)] followed by [ioutil.ReadAll]. *)
Definition NewReader (b : Bucket) (name : string) : GErr + bytes :=
  if decide (name ∈ failing b) then inl (ErrOther "gcs: request failed")
  else match objects b !! name with
       | None => inl ErrObjectNotExist
       | Some buf => inr buf
       end.

(** [writer := objHandle.NewWriter(ctx); writer.Write(buf); writer.Close()] *)
Definition WriteObject (b : Bucket) (name : string) (buf : bytes) : GErr + Bucket :=
  if decide (name ∈ failing b) then inl (ErrOther "gcs: request failed")
  else inr {| objects := <[name := buf]> (objects b); failing := failing b |}.

(** [bucket.Object(name).Delete(ctx)] *)
Definition DeleteObject (b : Bucket) (name : string) : GErr + Bucket :=
  if decide (name ∈ failing b) then inl (ErrOther "gcs: request failed")
  else match objects b !! name with
       | None => inl ErrObjectNotExist
       | Some _ => inr {| objects := delete name (objects b); failing := failing b |}
       end.

Inductive StoreErr := GCSErr (e : GErr) | DecodeErr | ErrGroupNotFound.

Section Codecs.
  (** [rulefmt.RuleGroup] has a [Name]; the rest of the group is opaque. *)
Variable RuleGroupFmt : Type.
Variable RG_Name : RuleGroupFmt -> string.
  (** [store.RuleGroupDesc] and its protobuf codec
      ([store.ToProto], [proto.Marshal], [proto.Unmarshal]). *)
Variable RuleGroupDesc : Type.
Variable ToProto : string -> string -> RuleGroupFmt -> RuleGroupDesc.
Variable proto_Marshal : RuleGroupDesc -> bytes.
Variable proto_Unmarshal : bytes -> option RuleGroupDesc.
  (** [alertStore.AlertConfig], its zero value and [json.Unmarshal] into
      a zero-valued config. *)
Variable AlertConfig : Type.
Variable AlertConfig_zero : AlertConfig.
Variable json_Unmarshal : bytes -> option AlertConfig.

  (** [func (g *GCSClient) SetRuleGroup(ctx, userID, namespace, grp)] *)
Definition SetRuleGroup (b : Bucket) (userID namespace : string)
      (grp : RuleGroupFmt) : StoreErr + Bucket :=
    let rg := ToProto userID namespace grp in
    let rgBytes := proto_Marshal rg in
    let handle := generateRuleHandle userID namespace (RG_Name grp) in
    match WriteObject b handle rgBytes with
    | inl e => inl (GCSErr e)
    | inr b' => inr b'
    end.

  (** [func (g *GCSClient) getRuleGroup(ctx, handle)]: [inr None] is the
      [nil, nil] returned for a missing object. *)
Definition getRuleGroup (b : Bucket) (handle : string)
      : StoreErr + option RuleGroupDesc :=
    match NewReader b handle with
    | inl ErrObjectNotExist => inr None
    | inl e => inl (GCSErr e)
    | inr buf =>
        match proto_Unmarshal buf with
        | None => inl DecodeErr
        | Some rg => inr (Some rg)
        end
    end.

  (** [func (g *GCSClient) GetRuleGroup(ctx, userID, namespace, grp)]
      ([store.ToRuleGroup] is the identity on the descriptor here). *)
Definition GetRuleGroup (b : Bucket) (userID namespace grp : string)
      : StoreErr + RuleGroupDesc :=
    let handle := generateRuleHandle userID namespace grp in
    match getRuleGroup b handle with
    | inl e => inl e
    | inr None => inl ErrGroupNotFound
    | inr (Some rg) => inr rg
    end.

  (** [func (g *GCSClient) DeleteRuleGroup(ctx, userID, namespace, group)] *)
Definition DeleteRuleGroup (b : Bucket) (userID namespace group : string)
      : StoreErr + Bucket :=
    let handle := generateRuleHandle userID namespace group in
    match DeleteObject b handle with
    | inl e => inl (GCSErr e)
    | inr b' => inr b'
    end.

  (** [func (g *GCSClient) getAlertConfig(ctx, obj string)] *)
Definition getAlertConfig (b : Bucket) (obj : string) : AlertConfig * option StoreErr :=
    match NewReader b obj with
    | inl ErrObjectNotExist => (AlertConfig_zero, None)
    | inl e => (AlertConfig_zero, Some (GCSErr e))
    | inr buf =>
        match json_Unmarshal buf with
        | None => (AlertConfig_zero, Some DecodeErr)
        | Some config => (config, None)
        end
    end.

  (** [func (g *GCSClient) GetAlertConfig(ctx, userID string)] *)
Definition GetAlertConfig (b : Bucket) (userID : string) : AlertConfig * option StoreErr :=
    getAlertConfig b (alertPrefix ++ userID)%string.
End Codecs.

End GCS.

(* ------------------------------------------------------------------ *)
(** ** Go string helpers *)
Module GoStrings.

(** The rest of [s] after [prefix], when [prefix] is a prefix of [s]. *)
Fixpoint strip_prefix (prefix s : string) : option string :=
  match prefix, s with
  | EmptyString, _ => Some s
  | String c p', String d s' => if Ascii.eqb c d then strip_prefix p' s' else None
  | String _ _, EmptyString => None
  end.

(** [strings.HasPrefix(s, prefix)] *)
Definition HasPrefix (s prefix : string) : bool :=
  match strip_prefix prefix s with Some _ => true | None => false end.

(** [strings.TrimPrefix(s, prefix)]: [s[len(prefix):]] when [s] has the
    prefix, [s] unchanged otherwise. *)
Definition TrimPrefix (s prefix : string) : string :=
  match strip_prefix prefix s with Some r => r | None => s end.

(** [strings.Contains(s, substr)] *)
Fixpoint Contains (s substr : string) : bool :=
  HasPrefix s substr
  || match s with EmptyString => false | String _ s' => Contains s' substr end.

(** The character "/" (ASCII 47). *)
Definition slash_char : Ascii.ascii := Ascii.Ascii true true true true false true false false.

(** A string with no "/" in it. *)
Definition no_slash (s : string) : bool := negb (Contains s "/").

End GoStrings.

(* ------------------------------------------------------------------ *)
(** ** Listing and alert-config writes of the GCS store *)
Module GCSList.
Import GoStrings GCS.

(** What [g.bucket.Objects(ctx, &gstorage.Query{Prefix: prefix})] yields:
    the names of the stored objects having [prefix], in some order. *)
Definition listed (b : Bucket) (prefix : string) (it : list string) : Prop :=
  it ≡ₚ List.filter (fun k => HasPrefix k prefix) (map fst (map_to_list (objects b))).

Section Listing.
Variable RuleGroupDesc : Type.
Variable proto_Unmarshal : bytes -> option RuleGroupDesc.
Variable AlertConfig : Type.
Variable AlertConfig_zero : AlertConfig.
Variable json_Unmarshal : bytes -> option AlertConfig.
Variable json_Marshal : AlertConfig -> bytes.
(** [Objects prefix]: the object names the bucket iterator returns. *)
Variable Objects : string -> list string.

(** The loop of [ListAlertConfigs]. *)
Fixpoint listAlertConfigs_loop (b : Bucket) (it : list string)
    (configs : gmap string AlertConfig) : StoreErr + gmap string AlertConfig :=
  match it with
  | [] => inr configs
  | name :: rest =>
      match getAlertConfig AlertConfig AlertConfig_zero json_Unmarshal b name with
      | (_, Some err) => inl err
      | (alertConfig, None) =>
          let user := TrimPrefix name alertPrefix in
          listAlertConfigs_loop b rest (<[user := alertConfig]> configs)
      end
  end.

(** [func (g *GCSClient) ListAlertConfigs(ctx)] *)
Definition ListAlertConfigs (b : Bucket) : StoreErr + gmap string AlertConfig :=
  listAlertConfigs_loop b (Objects alertPrefix) ∅.

(** [func (g *GCSClient) SetAlertConfig(ctx, userID, cfg)] *)
Definition SetAlertConfig (b : Bucket) (userID : string) (cfg : AlertConfig)
    : StoreErr + Bucket :=
  let cfgBytes := json_Marshal cfg in
  match WriteObject b (alertPrefix ++ userID)%string cfgBytes with
  | inl e => inl (GCSErr e)
  | inr b' => inr b'
  end.

(** [func (g *GCSClient) DeleteAlertConfig(ctx, userID)] *)
Definition DeleteAlertConfig (b : Bucket) (userID : string) : StoreErr + Bucket :=
  match DeleteObject b (alertPrefix ++ userID)%string with
  | inl e => inl (GCSErr e)
  | inr b' => inr b'
  end.



End Listing.

End GCSList.

(* ------------------------------------------------------------------ *)
(** ** NewRuler *)
Module Construction.

(** Goroutines [NewRuler] starts. *)
Inductive Spawn := SpawnWorker (i : Z) | SpawnScheduler.

(** What the constructed [Ruler] holds besides its configuration. *)
Record Built := {
  has_lifecycler : bool;
  has_ring : bool;
  built_notifiers : gmap string rulerNotifier;
}.

(** [func NewRuler(cfg, engine, queryable, d)]. The [option error]
    arguments are what [buildNotifierConfig], [NewRuleStorage],
    [ring.NewLifecycler] and [ring.New] return ([None] for nil). The
    second component lists the goroutines started before returning. *)
Definition NewRuler (NumWorkers : Z) (EnableSharding : bool)
    (buildNotifierConfig NewRuleStorage NewLifecycler ringNew : option error)
    : result Built * list Spawn :=
  if Z.leb NumWorkers 0 then (Err "must have at least 1 worker", [])
  else match buildNotifierConfig with
  | Some err => (Err err, [])
  | None =>
      (* [rulePoller, ruleStore, err := NewRuleStorage(cfg.StoreConfig)]:
         this [err] is never read. *)
      let _ := NewRuleStorage in
      let sharded :=
        if EnableSharding then
          match NewLifecycler with
          | Some err => Err err
          | None => match ringNew with Some err => Err err | None => Ok (true, true) end
          end
        else Ok (false, false) in
      match sharded with
      | Err err => (Err err, [])
      | Ok (l, rg) =>
          (Ok {| has_lifecycler := l; has_ring := rg; built_notifiers := ∅ |},
           map (fun i => SpawnWorker (Z.of_nat i)) (seq 0 (Z.to_nat NumWorkers))
           ++ [SpawnScheduler])
      end
  end.

End Construction.

(* ------------------------------------------------------------------ *)
(** ** newGroup *)
Module Groups.
Import Notifiers.

(** The [store.RuleGroup] interface: [User()], [ID()], [Rules(ctx)]. *)
Record RuleGroupI (Rule : Type) := {
  rg_User : string;
  rg_ID : string;
  rg_Rules : result (list Rule);
}.
Arguments rg_User {Rule}.
Arguments rg_ID {Rule}.
Arguments rg_Rules {Rule}.

(** The [wrappedGroup] built by [newGroup(g.ID(), rls, appendable, opts)]:
    its name, rules, the notifier bound by [sendAlerts(notifier, ...)],
    the external URL string it sends with, and the per-user metrics. *)
Record wrappedGroup (Rule : Type) := {
  wg_name : string;
  wg_rules : list Rule;
  wg_notifier : SendAlerts.Manager;
  wg_externalURL : string;
  wg_metrics : nat;
}.
Arguments wg_name {Rule}.
Arguments wg_rules {Rule}.
Arguments wg_notifier {Rule}.
Arguments wg_externalURL {Rule}.
Arguments wg_metrics {Rule}.

(** The Ruler state [newGroup] touches: the notifier state, the
    [userMetrics] map (a [*rules.Metrics] by heap address) and the next
    fresh metrics address. *)
Record GroupState := {
  gs_ruler : RulerState;
  userMetrics : gmap string nat;
  metrics_next : nat;
}.

(** [func (r *Ruler) newGroup(ctx, g)]; [alertURL] is
    [r.alertURL.String()] and [applyConfig] the outcome met by
    [getOrCreateNotifier]. *)
Definition newGroup {Rule : Type} (alertURL : string) (applyConfig : option error)
    (g : RuleGroupI Rule) (st : GroupState) : result (wrappedGroup Rule) * GroupState :=
  let user := rg_User g in
  let (nres, rst) := getOrCreateNotifier user applyConfig (gs_ruler st) in
  let st1 := {| gs_ruler := rst; userMetrics := userMetrics st;
                metrics_next := metrics_next st |} in
  match nres with
  | Err err => (Err err, st1)
  | Ok notifier =>
      match rg_Rules g with
      | Err err => (Err err, st1)
      | Ok rls =>
          let '(metrics, st2) :=
            match userMetrics st1 !! user with
            | Some m => (m, st1)
            | None =>
                (metrics_next st1,
                 {| gs_ruler := gs_ruler st1;
                    userMetrics := <[user := metrics_next st1]> (userMetrics st1);
                    metrics_next := S (metrics_next st1) |})
            end in
          (Ok {| wg_name := rg_ID g; wg_rules := rls; wg_notifier := notifier;
                 wg_externalURL := alertURL; wg_metrics := metrics |}, st2)
      end
  end.

End Groups.

(* ------------------------------------------------------------------ *)
(** ** GCS chunk client *)
Module Chunks.
Import GCS.

Inductive ChunkErr := ChunkEncodeErr (e : error) | ChunkGCSErr (e : GErr)
                    | ChunkDecodeErr (e : error).

Section ChunkClient.
(** [chunk.Chunk] with [ExternalKey()], [Encode()] and [Decode(ctx, buf)]. *)
Variable Chunk : Type.
Variable ExternalKey : Chunk -> string.
Variable Encode : Chunk -> error + bytes.
Variable Decode : Chunk -> bytes -> error + Chunk.

(** [func (s *gcsChunkClient) PutChunks(ctx, chunks)]: the bucket keeps
    every write made before an error. *)
Fixpoint PutChunks (b : Bucket) (chunks : list Chunk) : Bucket * option ChunkErr :=
  match chunks with
  | [] => (b, None)
  | c :: rest =>
      match Encode c with
      | inl err => (b, Some (ChunkEncodeErr err))
      | inr buf =>
          match WriteObject b (ExternalKey c) buf with
          | inl err => (b, Some (ChunkGCSErr err))
          | inr b' => PutChunks b' rest
          end
      end
  end.

End ChunkClient.

End Chunks.

(* ------------------------------------------------------------------ *)
(** ** Compactor test helper *)
Module CompactorTest.

(** [func removeMetaFetcherLogs(input []string) []string] *)
Fixpoint removeMetaFetcherLogs (input : list string) : list string :=
  match input with
  | [] => []
  | l :: rest =>
      if negb (GoStrings.Contains l "block.MetaFetcher")
      then l :: removeMetaFetcherLogs rest
      else removeMetaFetcherLogs rest
  end.

End CompactorTest.

(* ------------------------------------------------------------------ *)
(** ** Spec-side forms and concrete test inputs *)

Import SendAlerts Ownership Notifiers Shutdown GCS.

Definition not_pending (a : Alert) : bool :=
  negb (AlertState_eqb (State a) StatePending).

(** The record the spec describes for one forwarded alert. *)
Definition spec_record (TableLinkForExpression : string -> string)
    (externalURL expr : string) (a : Alert) : NAlert :=
  {| StartsAt := FiredAt a;
     EndsAt := if IsZero (ResolvedAt a) then time_zero else ResolvedAt a;
     N_Labels := A_Labels a;
     N_Annotations := A_Annotations a;
     GeneratorURL := (externalURL ++ TableLinkForExpression expr)%string |}.

Definition pending_alert : Alert :=
  {| State := StatePending; A_Labels := [("alertname", "HighLoad")];
     A_Annotations := []; ActiveAt := 100; FiredAt := 0; ResolvedAt := 0 |}.

(** A ring that fails for hashes below 100, returns an empty set for
    hash 100, and otherwise names "10.0.0.1:9095" first. *)
Definition test_ring (h : Z) (op : Operation) : result ReplicationSet :=
  if Z.ltb h 100 then Err "too many unhealthy instances in the ring"
  else if Z.eqb h 100 then Ok {| Ingesters := []; MaxErrors := 0 |}
  else Ok {| Ingesters := [{| Addr := "10.0.0.1:9095" |}; {| Addr := "10.0.0.2:9095" |}];
             MaxErrors := 0 |}.

Definition test_ruler (addr : string) : Ruler :=
  {| EnableSharding := true; ring_Get := test_ring; lifecycler_Addr := addr |}.

Definition empty_state : RulerState :=
  {| notifiers := ∅; ringCheckErrors := 0; heap_next := 1; started_loops := [] |}.

(** Position of each step in the intended shutdown sequence. *)
Definition rank (e : Event) : nat :=
  match e with
  | NotifierStop _ => 0
  | SchedulerStop => 1
  | WorkersWait => 2
  | LifecyclerShutdown => 3
  | RingStop => 4
  end.

Definition rank_le (a b : Event) : Prop := (rank a <= rank b)%nat.

Definition two_tenants : RulerState :=
  {| notifiers := <["t1" := {| notifier := 1%nat |}]> (<["t2" := {| notifier := 2%nat |}]> ∅);
     ringCheckErrors := 0; heap_next := 3%nat; started_loops := [1%nat; 2%nat] |}.

Definition rule_key (tenant namespace name : string) : string :=
  ("rules/" ++ tenant ++ "/" ++ namespace ++ "/" ++ name)%string.

(** Concrete codecs for the witnesses: a group is just its name, and a
    serialized group or config is the bytes of a string. *)
Definition demo_marshal (s : string) : bytes := list_byte_of_string s.
Definition demo_unmarshal (buf : bytes) : option string := Some (string_of_list_byte buf).
Definition demo_json (buf : bytes) : option (list (string * string)) :=
  match buf with [] => None | _ => Some [] end.

Definition demo_bucket : Bucket :=
  {| objects := <["rules/t1/ns/g1" := demo_marshal "g1"]>
                  (<["alerts/t2" := list_byte_of_string "{}"]> ∅);
     failing := ∅ |}.

Definition demo_bucket_stored : Bucket :=
  {| objects := <["alerts/t1" := list_byte_of_string "{}"]> ∅; failing := ∅ |}.

Definition demo_json_marshal (cfg : list (string * string)) : bytes :=
  list_byte_of_string "{}".

(** A complete listing: every stored name with the prefix, in map order. *)
Definition demo_objects (b : Bucket) (p : string) : list string :=
  List.filter (fun k => GoStrings.HasPrefix k p) (map fst (map_to_list (objects b))).

(** [demo_bucket] with an undecodable (empty) config for tenant t3. *)
Definition demo_bucket_bad : Bucket :=
  {| objects := <["alerts/t3" := []]> (objects demo_bucket); failing := ∅ |}.


(** Chunks for the witnesses: a chunk is its key, stored as its bytes;
    the chunk "bad" cannot be encoded. *)
Definition demo_encode (c : string) : error + bytes :=
  if String.eqb c "bad" then inl "encode" else inr (list_byte_of_string c).
Definition empty_bucket : Bucket := {| objects := ∅; failing := ∅ |}.

(** A notifier state is well formed when every cached notifier's loop was
    started, loops are started once each, every started manager is below
    the next fresh address, and no two tenants share a manager. *)
Definition notifiers_wf (st : RulerState) : Prop :=
  NoDup (started_loops st)
  /\ (forall m, In m (started_loops st) -> (m < heap_next st)%nat)
  /\ (forall u n, notifiers st !! u = Some n -> In (notifier n) (started_loops st))
  /\ (forall u1 u2 n1 n2, notifiers st !! u1 = Some n1 -> notifiers st !! u2 = Some n2 ->
        notifier n1 = notifier n2 -> u1 = u2).

Definition empty_group_state : Groups.GroupState :=
  {| Groups.gs_ruler := empty_state; Groups.userMetrics := ∅; Groups.metrics_next := 0 |}.

Definition demo_group (user id : string) (rules : result (list string))
    : Groups.RuleGroupI string :=
  {| Groups.rg_User := user; Groups.rg_ID := id; Groups.rg_Rules := rules |}.

(** Case analysis on a lookup in a map built by [n] inserts. *)
Ltac lookup_cases H tac :=
  repeat (lazymatch type of H with
          | <[_ := _]> _ !! _ = Some _ =>
              apply lookup_insert_Some in H as [[<- <-] | [_ H]]; [tac |]
          end);
  rewrite lookup_empty in H; discriminate.

(* ================================================================== *)
(** * Properties *)

(* ------------------------------------------------------------------ *)
(** ** Alert forwarding *)

Section SendAlertsProps.
Variable TableLinkForExpression : string -> string.

Lemma build_res_filter_map (externalURL expr : string) (alerts : list Alert) :
    build_res TableLinkForExpression externalURL expr alerts
    = map (spec_record TableLinkForExpression externalURL expr) (List.filter not_pending alerts).
  Proof.
    induction alerts as [| a rest IH]; [reflexivity |].
    simpl. unfold not_pending at 1.
    destruct (AlertState_eqb (State a) StatePending) eqn:E; simpl; [exact IH |].
    rewrite IH. f_equal. unfold convert, spec_record.
    destruct (IsZero (ResolvedAt a)); reflexivity.
  Qed.

Lemma sendAlerts_nonempty (n : Manager) (externalURL expr : string)
      (alerts : list Alert) (log : SendLog) :
    alerts <> [] ->
    sendAlerts TableLinkForExpression n externalURL expr alerts log
    = log ++ [(n, build_res TableLinkForExpression externalURL expr alerts)].
  Proof.
    intros Hne. unfold sendAlerts.
    destruct alerts as [| a rest]; [congruence | reflexivity].
  Qed.

Lemma sendAlerts_empty (n : Manager) (externalURL expr : string) (log : SendLog) :
    sendAlerts TableLinkForExpression n externalURL expr [] log = log.
  Proof. reflexivity. Qed.
End SendAlertsProps.

(** C1 (the code's behaviour at the failing input): a batch whose only
    alert is pending filters down to nothing, yet [sendAlerts] still calls
    [n.Send] once, with an empty batch, because it tests [len(alerts)]
    rather than the filtered [res]. *)
Lemma sendAlerts_all_pending_still_sends :
  forall (TableLinkForExpression : string -> string) (n : Manager),
    build_res TableLinkForExpression "http://ruler" "up == 0" [pending_alert] = []
    /\ sendAlerts TableLinkForExpression n "http://ruler" "up == 0" [pending_alert] []
       = [(n, [])].
Proof. intros TL n. split; reflexivity. Qed.

(** C2: the transform keeps exactly the non-pending alerts, in input
    order, and turns each into one record with StartsAt = FiredAt, EndsAt
    = ResolvedAt when that is non-zero and unset (zero) otherwise, the
    labels and annotations of the alert, and GeneratorURL = externalURL
    followed by the table link of the expression; that list is the batch
    handed to [n.Send] for a non-empty input. *)
Theorem sendAlerts_transform :
  forall (TableLinkForExpression : string -> string) (externalURL expr : string)
         (alerts : list Alert),
    build_res TableLinkForExpression externalURL expr alerts
    = map (spec_record TableLinkForExpression externalURL expr)
          (List.filter not_pending alerts)
    /\ (forall (n : Manager) (log : SendLog), alerts <> [] ->
        sendAlerts TableLinkForExpression n externalURL expr alerts log
        = log ++ [(n, map (spec_record TableLinkForExpression externalURL expr)
                           (List.filter not_pending alerts))]).
Proof.
  intros TL url expr alerts. split.
  - apply build_res_filter_map.
  - intros n log Hne. rewrite sendAlerts_nonempty by exact Hne.
    rewrite build_res_filter_map. reflexivity.
Qed.

(* ------------------------------------------------------------------ *)
(** ** Ring ownership *)

(** C3: when the ring lookup fails, [ownsRule] reports the group as owned
    and the [ringCheckErrors] counter goes up by exactly one, nothing else
    in the state changing. *)
Theorem ownsRule_ring_error :
  forall (r : Ruler) (hash : Z) (st : RulerState) (e : error),
    ring_Get r hash Read = Err e ->
    exists st',
      ownsRule r hash st = (Returns true, st')
      /\ ringCheckErrors st' = S (ringCheckErrors st)
      /\ notifiers st' = notifiers st
      /\ heap_next st' = heap_next st
      /\ started_loops st' = started_loops st.
Proof.
  intros r hash st e H. unfold ownsRule. rewrite H.
  exists (incRingCheckErrors st). repeat split.
Qed.

(** C4: when the ring lookup succeeds, [ownsRule] returns true exactly
    when the first replica of the returned set has this replica's
    lifecycler address. *)
Theorem ownsRule_first_replica :
  forall (r : Ruler) (hash : Z) (st : RulerState) (rs : ReplicationSet),
    ring_Get r hash Read = Ok rs ->
    (fst (ownsRule r hash st) = Returns true
     <-> exists (d : IngesterDesc) (rest : list IngesterDesc),
           Ingesters rs = d :: rest /\ Addr d = lifecycler_Addr r).
Proof.
  intros r hash st rs H. unfold ownsRule. rewrite H.
  destruct (Ingesters rs) as [| d rest] eqn:Ei; simpl.
  - split; [discriminate | intros (d & rest & Hd & _); discriminate].
  - destruct (String.eqb (Addr d) (lifecycler_Addr r)) eqn:Ea; simpl.
    + apply String.eqb_eq in Ea. split; [intros _; eauto | reflexivity].
    + apply String.eqb_neq in Ea. split; [discriminate |].
      intros (d' & rest' & Hd & Ha). injection Hd as -> ->. contradiction.
Qed.

(** C9: after a successful ring lookup, [ownsRule] indexes
    [rlrs.Ingesters[0]] without a length check: it panics exactly when
    the returned replica set is empty, so it is safe only when a
    successful lookup returns at least one replica. *)
Theorem ownsRule_index_safety :
  forall (r : Ruler) (hash : Z) (st : RulerState) (rs : ReplicationSet),
    ring_Get r hash Read = Ok rs ->
    (fst (ownsRule r hash st) = PanicIndexOutOfRange <-> Ingesters rs = []).
Proof.
  intros r hash st rs H. unfold ownsRule. rewrite H.
  destruct (Ingesters rs) as [| d rest]; simpl; [tauto |].
  destruct (String.eqb (Addr d) (lifecycler_Addr r)); simpl;
    split; discriminate.
Qed.

Lemma ownsRule_ring_error_witness :
  ring_Get (test_ruler "10.0.0.2:9095") 7 Read = Err "too many unhealthy instances in the ring"
  /\ exists st',
      ownsRule (test_ruler "10.0.0.2:9095") 7 empty_state = (Returns true, st')
      /\ ringCheckErrors st' = S (ringCheckErrors empty_state)
      /\ notifiers st' = notifiers empty_state
      /\ heap_next st' = heap_next empty_state
      /\ started_loops st' = started_loops empty_state.
Proof.
  split; [reflexivity |].
  apply (ownsRule_ring_error (test_ruler "10.0.0.2:9095") 7 empty_state
           "too many unhealthy instances in the ring").
  reflexivity.
Defined.

Lemma ownsRule_first_replica_witness :
  (fst (ownsRule (test_ruler "10.0.0.2:9095") 500 empty_state) = Returns true
   <-> exists (d : IngesterDesc) (rest : list IngesterDesc),
         [{| Addr := "10.0.0.1:9095" |}; {| Addr := "10.0.0.2:9095" |}] = d :: rest
         /\ Addr d = "10.0.0.2:9095").
Proof.
  apply (ownsRule_first_replica (test_ruler "10.0.0.2:9095") 500 empty_state
           {| Ingesters := [{| Addr := "10.0.0.1:9095" |}; {| Addr := "10.0.0.2:9095" |}];
              MaxErrors := 0 |}).
  reflexivity.
Defined.

Lemma ownsRule_index_safety_witness :
  (fst (ownsRule (test_ruler "10.0.0.1:9095") 100 empty_state) = PanicIndexOutOfRange
   <-> @nil IngesterDesc = []).
Proof.
  apply (ownsRule_index_safety (test_ruler "10.0.0.1:9095") 100 empty_state
           {| Ingesters := []; MaxErrors := 0 |}).
  reflexivity.
Defined.

Example ownsRule_test_owned :
  fst (ownsRule (test_ruler "10.0.0.1:9095") 500 empty_state) = Returns true.
Proof. reflexivity. Qed.

Example ownsRule_test_not_owned :
  fst (ownsRule (test_ruler "10.0.0.2:9095") 500 empty_state) = Returns false.
Proof. reflexivity. Qed.

(* ------------------------------------------------------------------ *)
(** ** Per-tenant notifier cache *)

Section NotifierCache.

Lemma goc_cached (u : string) (ac : option error) (st : RulerState)
      (n : rulerNotifier) :
    notifiers st !! u = Some n ->
    getOrCreateNotifier u ac st = (Ok (notifier n), st).
  Proof. intros H. unfold getOrCreateNotifier. rewrite H. reflexivity. Qed.

  (** An entry, once cached, is never replaced or removed by any call. *)
Lemma goc_keeps (u u' : string) (ac : option error) (st : RulerState)
      (n : rulerNotifier) :
    notifiers st !! u = Some n ->
    notifiers (getOrCreateNotifier u' ac st).2 !! u = Some n.
  Proof.
    intros H. unfold getOrCreateNotifier.
    destruct (notifiers st !! u') as [n'|] eqn:E'; [exact H |].
    destruct ac as [err|]; simpl; [exact H |].
    rewrite lookup_insert_ne; [exact H |].
    intros ->. congruence.
  Qed.

  (** A successful call leaves the returned manager cached for the tenant. *)
Lemma goc_ok_cached (u : string) (ac : option error) (st st' : RulerState)
      (m : Manager) :
    getOrCreateNotifier u ac st = (Ok m, st') ->
    notifiers st' !! u = Some {| notifier := m |}.
  Proof.
    unfold getOrCreateNotifier.
    destruct (notifiers st !! u) as [n|] eqn:E.
    - intros Heq. injection Heq as <- <-. rewrite E. destruct n. reflexivity.
    - destruct ac as [err|]; simpl; intros Heq; [discriminate |].
      injection Heq as <- <-. simpl. apply lookup_insert_eq.
  Qed.

Lemma run_calls_keeps (calls : list (string * option error)) (st : RulerState)
      (u : string) (n : rulerNotifier) :
    notifiers st !! u = Some n ->
    notifiers (run_calls calls st).2 !! u = Some n.
  Proof.
    revert st. induction calls as [| [u' ac] rest IH]; intros st H; [exact H |].
    simpl. destruct (getOrCreateNotifier u' ac st) as [res st1] eqn:E.
    destruct (run_calls rest st1) as [ress st2] eqn:E2. simpl.
    replace st2 with (run_calls rest st1).2 by (rewrite E2; reflexivity).
    apply IH. replace st1 with (getOrCreateNotifier u' ac st).2
      by (rewrite E; reflexivity).
    apply goc_keeps. exact H.
  Qed.

Lemma run_calls_cached_result (calls : list (string * option error))
      (st : RulerState) (u : string) (n : rulerNotifier) (m : Manager) :
    notifiers st !! u = Some n ->
    In (u, Ok m) (run_calls calls st).1 -> m = notifier n.
  Proof.
    revert st. induction calls as [| [u' ac] rest IH]; intros st H Hin;
      [destruct Hin |].
    simpl in Hin. destruct (getOrCreateNotifier u' ac st) as [res st1] eqn:E.
    destruct (run_calls rest st1) as [ress st2] eqn:E2. simpl in Hin.
    destruct Hin as [Hhd | Htl].
    - injection Hhd as -> ->. rewrite goc_cached with (n := n) in E by exact H.
      congruence.
    - apply (IH st1).
      + replace st1 with (getOrCreateNotifier u' ac st).2
          by (rewrite E; reflexivity).
        apply goc_keeps. exact H.
      + rewrite E2. exact Htl.
  Qed.

Lemma run_calls_same_manager (calls : list (string * option error))
      (st : RulerState) (u : string) (m1 m2 : Manager) :
    In (u, Ok m1) (run_calls calls st).1 ->
    In (u, Ok m2) (run_calls calls st).1 -> m1 = m2.
  Proof.
    revert st. induction calls as [| [u' ac] rest IH]; intros st H1 H2;
      [destruct H1 |].
    simpl in H1, H2. destruct (getOrCreateNotifier u' ac st) as [res st1] eqn:E.
    destruct (run_calls rest st1) as [ress st2] eqn:E2. simpl in H1, H2.
    assert (Hlater : forall m, res = Ok m -> u' = u ->
              forall m', In (u, Ok m') ress -> m' = m).
    { intros m -> -> m' Hin.
      apply (run_calls_cached_result rest st1 u {| notifier := m |} m').
      - eapply goc_ok_cached. exact E.
      - rewrite E2. exact Hin. }
    destruct H1 as [H1 | H1], H2 as [H2 | H2].
    - congruence.
    - injection H1 as -> ->. symmetry. apply (Hlater m1 eq_refl eq_refl m2 H2).
    - injection H2 as -> ->. apply (Hlater m2 eq_refl eq_refl m1 H1).
    - apply (IH st1); rewrite E2; assumption.
  Qed.

End NotifierCache.

(** C5: a tenant with a cached notifier gets that notifier's manager
    back, with the state untouched (no new notifier, no new send loop);
    across any sequence of calls, every successful call for one tenant
    returns the same manager, and a cached entry is never replaced. *)
Theorem notifier_singleton :
  (forall (u : string) (ac : option error) (st : RulerState) (n : rulerNotifier),
      notifiers st !! u = Some n ->
      getOrCreateNotifier u ac st = (Ok (notifier n), st))
  /\ (forall (calls : list (string * option error)) (st : RulerState)
             (u : string) (m1 m2 : Manager),
        In (u, Ok m1) (run_calls calls st).1 ->
        In (u, Ok m2) (run_calls calls st).1 -> m1 = m2)
  /\ (forall (calls : list (string * option error)) (st : RulerState)
             (u : string) (n : rulerNotifier),
        notifiers st !! u = Some n ->
        notifiers (run_calls calls st).2 !! u = Some n).
Proof.
  split; [| split].
  - intros u ac st n H. apply goc_cached. exact H.
  - apply run_calls_same_manager.
  - apply run_calls_keeps.
Qed.

(** C6: if [applyConfig] fails, the error is returned and the notifier
    map is left as it was; a later call for the same tenant creates a
    notifier again and, when [applyConfig] then succeeds, returns it and
    caches it. *)
Theorem notifier_failure_not_cached :
  forall (u : string) (e : error) (st : RulerState),
    notifiers st !! u = None ->
    let '(res1, st1) := getOrCreateNotifier u (Some e) st in
    res1 = Err e
    /\ notifiers st1 = notifiers st
    /\ exists m, fst (getOrCreateNotifier u None st1) = Ok m
                 /\ notifiers (getOrCreateNotifier u None st1).2 !! u
                    = Some {| notifier := m |}.
Proof.
  intros u e st H. unfold getOrCreateNotifier at 1. rewrite H. simpl.
  split; [reflexivity | split; [reflexivity |]].
  unfold getOrCreateNotifier. simpl. rewrite H. simpl.
  eexists. split; [reflexivity | apply lookup_insert_eq].
Qed.

Lemma notifier_failure_not_cached_witness :
  notifiers empty_state !! "tenant-1" = None
  /\ let '(res1, st1) := getOrCreateNotifier "tenant-1" (Some "bad alertmanager config") empty_state in
     res1 = Err "bad alertmanager config"
     /\ notifiers st1 = notifiers empty_state
     /\ exists m, fst (getOrCreateNotifier "tenant-1" None st1) = Ok m
                  /\ notifiers (getOrCreateNotifier "tenant-1" None st1).2 !! "tenant-1"
                     = Some {| notifier := m |}.
Proof.
  split; [reflexivity |].
  apply (notifier_failure_not_cached "tenant-1" "bad alertmanager config" empty_state).
  reflexivity.
Defined.

(* ------------------------------------------------------------------ *)
(** ** Shutdown order *)

Section Sortedness.
Context {A : Type} (R : A -> A -> Prop).

Lemma StronglySorted_app_cross (l1 l2 : list A) :
    StronglySorted R l1 -> StronglySorted R l2 ->
    (forall x y, In x l1 -> In y l2 -> R x y) ->
    StronglySorted R (l1 ++ l2).
  Proof.
    induction l1 as [| a l1 IH]; intros H1 H2 Hx; simpl; [exact H2 |].
    inversion H1 as [| ? ? Hs Hf]; subst. constructor.
    - apply IH; [exact Hs | exact H2 |]. intros x y Hx' Hy. apply Hx; simpl; auto.
    - apply Forall_app. split; [exact Hf |].
      apply List.Forall_forall. intros y Hy. apply Hx; simpl; auto.
  Qed.

Lemma StronglySorted_nth (l : list A) (i j : nat) (a b : A) :
    StronglySorted R l -> nth_error l j = Some a -> nth_error l i = Some b ->
    (j < i)%nat -> R a b.
  Proof.
    revert i j. induction l as [| x l IH]; intros i j Hs Ha Hb Hlt.
    - destruct j; discriminate.
    - inversion Hs as [| ? ? Hs' Hf]; subst.
      destruct i as [| i]; [lia |]. destruct j as [| j].
      + simpl in Ha, Hb. injection Ha as <-.
        rewrite List.Forall_forall in Hf. apply Hf. eapply nth_error_In. exact Hb.
      + simpl in Ha, Hb. apply (IH i j); [exact Hs' | exact Ha | exact Hb | lia].
  Qed.
End Sortedness.

Lemma Stop_sorted (r : Ruler) (iter : list (string * rulerNotifier)) :
  StronglySorted rank_le (Stop r iter).
Proof.
  unfold Stop. apply StronglySorted_app_cross.
  - induction iter as [| kv iter IH]; simpl; constructor; [exact IH |].
    apply List.Forall_forall. intros y Hy. apply in_map_iff in Hy.
    destruct Hy as (kv' & <- & _). unfold rank_le. simpl. lia.
  - destruct (EnableSharding r); simpl;
      repeat constructor; unfold rank_le; simpl; lia.
  - intros x y Hx _. apply in_map_iff in Hx. destruct Hx as (kv & <- & _).
    unfold rank_le. simpl. lia.
Qed.

Lemma filter_NotifierStop_map (iter : list (string * rulerNotifier)) :
  List.filter is_NotifierStop (map (fun kv => NotifierStop (notifier kv.2)) iter)
  = map (fun kv => NotifierStop (notifier kv.2)) iter.
Proof. induction iter as [| kv iter IH]; simpl; [reflexivity | rewrite IH; reflexivity]. Qed.

Lemma filter_not_NotifierStop_map (iter : list (string * rulerNotifier)) :
  List.filter (fun e => negb (is_NotifierStop e))
    (map (fun kv => NotifierStop (notifier kv.2)) iter) = [].
Proof. induction iter as [| kv iter IH]; simpl; [reflexivity | exact IH]. Qed.

(** C7: the events of [Stop] come in the order notifier stops, scheduler
    stop, wait for the workers, lifecycler shutdown, ring stop (any event
    of an earlier step precedes every event of a later one); every cached
    notifier is stopped exactly once; the scheduler is stopped and the
    workers awaited once each; and the lifecycler and ring steps happen,
    in that order, only when sharding is enabled. *)
Theorem Stop_order :
  forall (r : Ruler) (st : RulerState) (iter : list (string * rulerNotifier)),
    iter ≡ₚ map_to_list (notifiers st) ->
    (forall (i j : nat) (e1 e2 : Event),
        nth_error (Stop r iter) i = Some e1 ->
        nth_error (Stop r iter) j = Some e2 ->
        (rank e1 < rank e2)%nat -> (i < j)%nat)
    /\ List.filter is_NotifierStop (Stop r iter)
       ≡ₚ map (fun kv => NotifierStop (notifier kv.2)) (map_to_list (notifiers st))
    /\ List.filter (fun e => negb (is_NotifierStop e)) (Stop r iter)
       = [SchedulerStop; WorkersWait]
         ++ (if EnableSharding r then [LifecyclerShutdown; RingStop] else []).
Proof.
  intros r st iter Hperm. split; [| split].
  - intros i j e1 e2 H1 H2 Hlt.
    destruct (Nat.lt_total i j) as [Hij | [-> | Hji]]; [exact Hij | |].
    + rewrite H1 in H2. injection H2 as ->. lia.
    + pose proof (StronglySorted_nth rank_le _ i j e2 e1 (Stop_sorted r iter) H2 H1 Hji)
        as Hle.
      unfold rank_le in Hle. lia.
  - unfold Stop. rewrite List.filter_app.
    rewrite filter_NotifierStop_map. destruct (EnableSharding r); simpl; rewrite app_nil_r;
      apply Permutation_map; exact Hperm.
  - unfold Stop. rewrite List.filter_app.
    rewrite filter_not_NotifierStop_map. destruct (EnableSharding r); reflexivity.
Qed.

Lemma Stop_order_witness :
  map_to_list (notifiers two_tenants) ≡ₚ map_to_list (notifiers two_tenants)
  /\ List.filter (fun e => negb (is_NotifierStop e))
       (Stop (test_ruler "10.0.0.1:9095") (map_to_list (notifiers two_tenants)))
     = [SchedulerStop; WorkersWait; LifecyclerShutdown; RingStop].
Proof.
  split; [reflexivity |].
  apply (Stop_order (test_ruler "10.0.0.1:9095") two_tenants
           (map_to_list (notifiers two_tenants))).
  reflexivity.
Defined.

(* ------------------------------------------------------------------ *)
(** ** GCS object keys and missing alert configurations *)

Section StoreProps.
Variable RuleGroupFmt : Type.
Variable RG_Name : RuleGroupFmt -> string.
Variable RuleGroupDesc : Type.
Variable ToProto : string -> string -> RuleGroupFmt -> RuleGroupDesc.
Variable proto_Marshal : RuleGroupDesc -> bytes.
Variable proto_Unmarshal : bytes -> option RuleGroupDesc.

Lemma string_append_assoc (s1 s2 s3 : string) :
    (s1 ++ (s2 ++ s3) = (s1 ++ s2) ++ s3)%string.
  Proof.
    induction s1 as [| c s1 IH]; [reflexivity |].
    change (String c (s1 ++ (s2 ++ s3)) = String c ((s1 ++ s2) ++ s3))%string.
    rewrite IH. reflexivity.
  Qed.

Lemma generateRuleHandle_full (tenant namespace name : string) :
    tenant <> EmptyString -> namespace <> EmptyString ->
    generateRuleHandle tenant namespace name = rule_key tenant namespace name.
  Proof.
    intros Ht Hn. unfold generateRuleHandle, rule_key, rulePrefix.
    destruct tenant as [| c t]; [congruence |].
    destruct namespace as [| c' n]; [congruence |].
    cbv beta iota zeta. rewrite <- !string_append_assoc. reflexivity.
  Qed.

  (** C8: for a non-empty tenant and namespace the handle is
      rules/tenant/namespace/name; SetRuleGroup writes the serialized
      group under that key (and nowhere else), GetRuleGroup reads that
      key back, and DeleteRuleGroup deletes that key. *)
Theorem rule_group_object_key :
    forall (b : Bucket) (tenant namespace : string) (grp : RuleGroupFmt),
      tenant <> EmptyString -> namespace <> EmptyString ->
      let key := rule_key tenant namespace (RG_Name grp) in
      generateRuleHandle tenant namespace (RG_Name grp) = key
      /\ (key ∉ failing b ->
          SetRuleGroup RuleGroupFmt RG_Name RuleGroupDesc ToProto proto_Marshal
            b tenant namespace grp
          = inr {| objects := <[key := proto_Marshal (ToProto tenant namespace grp)]>
                                (objects b);
                   failing := failing b |})
      /\ (forall b' : Bucket,
            objects b' !! key = objects b !! key ->
            (key ∈ failing b' <-> key ∈ failing b) ->
            GetRuleGroup RuleGroupDesc proto_Unmarshal b' tenant namespace (RG_Name grp)
            = GetRuleGroup RuleGroupDesc proto_Unmarshal b tenant namespace (RG_Name grp))
      /\ (key ∉ failing b -> is_Some (objects b !! key) ->
          DeleteRuleGroup b tenant namespace (RG_Name grp)
          = inr {| objects := delete key (objects b); failing := failing b |}).
  Proof.
    intros b tenant namespace grp Ht Hn key.
    pose proof (generateRuleHandle_full tenant namespace (RG_Name grp) Ht Hn) as Hk.
    split; [exact Hk | split; [| split]].
    - intros Hf. unfold SetRuleGroup, WriteObject. rewrite Hk.
      fold key. destruct (decide (key ∈ failing b)); [contradiction | reflexivity].
    - intros b' Ho Hf. unfold GetRuleGroup, getRuleGroup, NewReader. rewrite Hk.
      fold key. rewrite Ho.
      destruct (decide (key ∈ failing b')) as [H1 | H1],
               (decide (key ∈ failing b)) as [H2 | H2];
        [reflexivity | tauto | tauto | reflexivity].
    - intros Hf [buf Hbuf]. unfold DeleteRuleGroup, DeleteObject. rewrite Hk.
      fold key. destruct (decide (key ∈ failing b)); [contradiction |].
      rewrite Hbuf. reflexivity.
  Qed.

End StoreProps.

Section AlertConfigProps.
Variable AlertConfig : Type.
Variable AlertConfig_zero : AlertConfig.
Variable json_Unmarshal : bytes -> option AlertConfig.

  (** C10: when reading alerts/<tenant> fails with object-not-exist,
      GetAlertConfig returns the zero AlertConfig and a nil error; that
      is the same answer as for a stored object that decodes to the zero
      config. *)
Theorem GetAlertConfig_missing :
    forall (b : Bucket) (userID : string),
      NewReader b (alertPrefix ++ userID)%string = inl ErrObjectNotExist ->
      GetAlertConfig AlertConfig AlertConfig_zero json_Unmarshal b userID
      = (AlertConfig_zero, None)
      /\ (forall (b' : Bucket) (buf : bytes),
            NewReader b' (alertPrefix ++ userID)%string = inr buf ->
            json_Unmarshal buf = Some AlertConfig_zero ->
            GetAlertConfig AlertConfig AlertConfig_zero json_Unmarshal b' userID
            = GetAlertConfig AlertConfig AlertConfig_zero json_Unmarshal b userID).
  Proof.
    intros b userID H.
    assert (Hm : GetAlertConfig AlertConfig AlertConfig_zero json_Unmarshal b userID
                 = (AlertConfig_zero, None)).
    { unfold GetAlertConfig, getAlertConfig. rewrite H. reflexivity. }
    split; [exact Hm |].
    intros b' buf Hr Hj. rewrite Hm.
    unfold GetAlertConfig, getAlertConfig. rewrite Hr, Hj. reflexivity.
  Qed.
End AlertConfigProps.

Lemma rule_group_object_key_witness :
  generateRuleHandle "t1" "ns" "g1" = "rules/t1/ns/g1"
  /\ DeleteRuleGroup demo_bucket "t1" "ns" "g1"
     = inr {| objects := delete "rules/t1/ns/g1" (objects demo_bucket);
              failing := ∅ |}.
Proof.
  destruct (rule_group_object_key string (fun s => s) string (fun _ _ g => g)
              demo_marshal demo_unmarshal demo_bucket "t1" "ns" "g1")
    as (Hk & _ & _ & Hd); [discriminate | discriminate |].
  split; [exact Hk |]. apply Hd.
  - set_solver.
  - vm_compute. eexists. reflexivity.
Defined.

Lemma GetAlertConfig_missing_witness :
  GetAlertConfig (list (string * string)) [] demo_json demo_bucket "t1" = ([], None)
  /\ GetAlertConfig (list (string * string)) [] demo_json demo_bucket_stored "t1"
     = GetAlertConfig (list (string * string)) [] demo_json demo_bucket "t1".
Proof.
  destruct (GetAlertConfig_missing (list (string * string)) [] demo_json
              demo_bucket "t1") as [Hm Hsame]; [vm_compute; reflexivity |].
  split; [exact Hm |].
  apply (Hsame demo_bucket_stored (list_byte_of_string "{}")); vm_compute; reflexivity.
Defined.

(* ================================================================== *)
(** * Further properties of the store, constructor, groups and chunks *)

Import GoStrings GCSList Construction Groups Chunks CompactorTest.

(* ------------------------------------------------------------------ *)
(** ** String helpers *)

Lemma strip_prefix_app (p u : string) :
  strip_prefix p (p ++ u)%string = Some u.
Proof.
  induction p as [| c p IH]; [reflexivity |].
  simpl. rewrite Ascii.eqb_refl. exact IH.
Qed.

Lemma strip_prefix_Some (p s r : string) :
  strip_prefix p s = Some r -> s = (p ++ r)%string.
Proof.
  revert s. induction p as [| c p IH]; intros s H.
  - simpl in H. injection H as ->. reflexivity.
  - destruct s as [| d s]; simpl in H; [discriminate |].
    destruct (Ascii.eqb c d) eqn:E; [| discriminate].
    apply Ascii.eqb_eq in E as ->.
    change (String d s = String d (p ++ r))%string. f_equal. apply IH. exact H.
Qed.

Lemma HasPrefix_app (p u : string) : HasPrefix (p ++ u)%string p = true.
Proof. unfold HasPrefix. rewrite strip_prefix_app. reflexivity. Qed.

Lemma TrimPrefix_app (p u : string) : TrimPrefix (p ++ u)%string p = u.
Proof. unfold TrimPrefix. rewrite strip_prefix_app. reflexivity. Qed.

Lemma HasPrefix_TrimPrefix (s p : string) :
  HasPrefix s p = true -> s = (p ++ TrimPrefix s p)%string.
Proof.
  unfold HasPrefix, TrimPrefix. destruct (strip_prefix p s) eqn:E; [| discriminate].
  intros _. apply strip_prefix_Some. exact E.
Qed.

Lemma string_app_cancel_l (p x y : string) :
  (p ++ x)%string = (p ++ y)%string -> x = y.
Proof.
  induction p as [| c p IH]; intros H; [exact H |].
  simpl in H. injection H as H. apply IH. exact H.
Qed.

Lemma string_app_assoc' (s1 s2 s3 : string) :
  ((s1 ++ s2) ++ s3)%string = (s1 ++ (s2 ++ s3))%string.
Proof.
  induction s1 as [| c s1 IH]; [reflexivity |].
  change (String c ((s1 ++ s2) ++ s3) = String c (s1 ++ (s2 ++ s3)))%string.
  rewrite IH. reflexivity.
Qed.

Lemma no_slash_cons (c : Ascii.ascii) (s : string) :
  no_slash (String c s) = true -> c <> slash_char /\ no_slash s = true.
Proof.
  intros H. unfold no_slash in *.
  change (negb ((match (if Ascii.eqb slash_char c then Some s else None) with
                 | Some _ => true | None => false end)
                || Contains s "/") = true) in H.
  destruct (Ascii.eqb slash_char c) eqn:E; [discriminate |].
  split; [| exact H].
  intros Heq. subst c. rewrite Ascii.eqb_refl in E. discriminate.
Qed.

(** A slash-free segment followed by "/" is determined by the string. *)
Lemma segment_unique (a b x y : string) :
  no_slash a = true -> no_slash b = true ->
  (a ++ "/" ++ x)%string = (b ++ "/" ++ y)%string -> a = b /\ x = y.
Proof.
  revert b. induction a as [| c a IH]; intros b Ha Hb H.
  - destruct b as [| d b].
    + change (String slash_char x = String slash_char y) in H.
      injection H as Hxy. auto.
    + change (String slash_char x = String d (b ++ "/" ++ y))%string in H.
      injection H as Hd _. apply no_slash_cons in Hb as [Hd' _]. congruence.
  - destruct b as [| d b].
    + change (String c (a ++ "/" ++ x) = String slash_char y)%string in H.
      injection H as Hc _. apply no_slash_cons in Ha as [Hc' _]. congruence.
    + change (String c (a ++ "/" ++ x) = String d (b ++ "/" ++ y))%string in H.
      injection H as -> H. apply no_slash_cons in Ha as [_ Ha].
      apply no_slash_cons in Hb as [_ Hb].
      destruct (IH b Ha Hb H) as [-> ->]. auto.
Qed.

(* ------------------------------------------------------------------ *)
(** ** Rule-group handles *)

Lemma rule_key_split (t ns n : string) :
  rule_key t ns n = (("rules/" ++ t ++ "/" ++ ns ++ "/") ++ n)%string.
Proof. unfold rule_key. rewrite !string_app_assoc'. reflexivity. Qed.

Lemma generateRuleHandle_ns_prefix (t ns : string) :
  t <> EmptyString -> ns <> EmptyString ->
  generateRuleHandle t ns "" = ("rules/" ++ t ++ "/" ++ ns ++ "/")%string.
Proof.
  intros Ht Hn. rewrite generateRuleHandle_full by assumption.
  rewrite rule_key_split. destruct ("rules/" ++ t ++ "/" ++ ns ++ "/")%string as [| c r];
    [reflexivity |].
  change (String c (r ++ "") = String c r)%string. f_equal.
  induction r as [| d r IH]; [reflexivity |].
  change (String d (r ++ "") = String d r)%string. rewrite IH. reflexivity.
Qed.

Lemma generateRuleHandle_listing_prefixes_part (t ns name : string) :
  t <> EmptyString -> ns <> EmptyString ->
  HasPrefix (generateRuleHandle t ns name) (generateRuleHandle t ns "") = true
  /\ HasPrefix (generateRuleHandle t ns name) (generateRuleHandle t "" "") = true.
Proof.
  intros Ht Hn.
  rewrite generateRuleHandle_full, generateRuleHandle_ns_prefix by assumption.
  split.
  - rewrite rule_key_split. apply HasPrefix_app.
  - destruct t as [| c t']; [congruence |].
    unfold rule_key. change (generateRuleHandle (String c t') "" "")
      with ("rules/" ++ String c t' ++ "/")%string.
    rewrite <- (string_app_assoc' (String c t') "/"),
            <- (string_app_assoc' "rules/" (String c t' ++ "/")).
    apply HasPrefix_app.
Qed.

(** X1: for a non-empty tenant and namespace, the handle of a group lies
    under the three listing prefixes the store uses: the namespace prefix
    of [ListRuleGroups]/[getRuleNamespace], the tenant prefix of
    [getAllRuleGroups], and the bare "rules/" prefix. *)
Theorem generateRuleHandle_listing_prefixes :
  forall (t ns name : string),
    t <> EmptyString -> ns <> EmptyString ->
    HasPrefix (generateRuleHandle t ns name) (generateRuleHandle t ns "") = true
    /\ HasPrefix (generateRuleHandle t ns name) (generateRuleHandle t "" "") = true
    /\ HasPrefix (generateRuleHandle t ns name) (generateRuleHandle "" "" "") = true.
Proof.
  intros t ns name Ht Hn.
  destruct (generateRuleHandle_listing_prefixes_part t ns name Ht Hn) as [H1 H2].
  split; [exact H1 | split; [exact H2 |]].
  rewrite generateRuleHandle_full by assumption.
  unfold rule_key. apply (HasPrefix_app "rules/").
Qed.

Lemma generateRuleHandle_listing_prefixes_witness :
  (HasPrefix (generateRuleHandle "t1" "ns" "g1") (generateRuleHandle "t1" "ns" "") = true
   /\ HasPrefix (generateRuleHandle "t1" "ns" "g1") (generateRuleHandle "t1" "" "") = true
   /\ HasPrefix (generateRuleHandle "t1" "ns" "g1") (generateRuleHandle "" "" "") = true).
Proof. apply generateRuleHandle_listing_prefixes; discriminate. Defined.



(** X3: for non-empty tenants and namespaces that contain no "/", the
    handle determines the tenant, the namespace and the group name. *)
Theorem generateRuleHandle_injective :
  forall (t1 ns1 n1 t2 ns2 n2 : string),
    t1 <> EmptyString -> ns1 <> EmptyString ->
    t2 <> EmptyString -> ns2 <> EmptyString ->
    no_slash t1 = true -> no_slash ns1 = true ->
    no_slash t2 = true -> no_slash ns2 = true ->
    generateRuleHandle t1 ns1 n1 = generateRuleHandle t2 ns2 n2 ->
    t1 = t2 /\ ns1 = ns2 /\ n1 = n2.
Proof.
  intros t1 ns1 n1 t2 ns2 n2 Ht1 Hn1 Ht2 Hn2 St1 Sn1 St2 Sn2 H.
  rewrite !generateRuleHandle_full in H by assumption. unfold rule_key in H.
  apply string_app_cancel_l in H.
  destruct (segment_unique t1 t2 _ _ St1 St2 H) as [-> H'].
  destruct (segment_unique ns1 ns2 _ _ Sn1 Sn2 H') as [-> ->]. auto.
Qed.

Lemma generateRuleHandle_injective_witness :
  "t1" = "t1" /\ "ns" = "ns" /\ "g1" = "g1".
Proof.
  apply (generateRuleHandle_injective "t1" "ns" "g1" "t1" "ns" "g1");
    first [discriminate | reflexivity].
Defined.

(* ------------------------------------------------------------------ *)
(** ** Rule-group and alert-config round trips *)

Section RoundTrips.
Variable RuleGroupFmt : Type.
Variable RG_Name : RuleGroupFmt -> string.
Variable RuleGroupDesc : Type.
Variable ToProto : string -> string -> RuleGroupFmt -> RuleGroupDesc.
Variable proto_Marshal : RuleGroupDesc -> bytes.
Variable proto_Unmarshal : bytes -> option RuleGroupDesc.



(** X5: writing a group leaves what [GetRuleGroup] returns for every other
    group identity unchanged, when tenants and namespaces are non-empty and
    contain no "/". *)
Theorem SetRuleGroup_frame :
  forall (b b' : Bucket) (t ns : string) (grp : RuleGroupFmt) (t' ns' name' : string),
    t <> EmptyString -> ns <> EmptyString ->
    t' <> EmptyString -> ns' <> EmptyString ->
    no_slash t = true -> no_slash ns = true ->
    no_slash t' = true -> no_slash ns' = true ->
    (t, ns, RG_Name grp) <> (t', ns', name') ->
    SetRuleGroup RuleGroupFmt RG_Name RuleGroupDesc ToProto proto_Marshal
      b t ns grp = inr b' ->
    GetRuleGroup RuleGroupDesc proto_Unmarshal b' t' ns' name'
    = GetRuleGroup RuleGroupDesc proto_Unmarshal b t' ns' name'.
Proof.
  intros b b' t ns grp t' ns' name' Ht Hn Ht' Hn' St Sn St' Sn' Hne HSet.
  unfold SetRuleGroup, WriteObject in HSet.
  destruct (decide (generateRuleHandle t ns (RG_Name grp) ∈ failing b));
    [discriminate |].
  injection HSet as <-.
  assert (Hk : generateRuleHandle t ns (RG_Name grp) <> generateRuleHandle t' ns' name').
  { intros Heq. apply Hne.
    destruct (generateRuleHandle_injective _ _ _ _ _ _ Ht Hn Ht' Hn' St Sn St' Sn' Heq)
      as (-> & -> & ->). reflexivity. }
  unfold GetRuleGroup, getRuleGroup, NewReader. simpl.
  rewrite lookup_insert_ne by exact Hk. reflexivity.
Qed.

(** X6: after deleting a stored group, [GetRuleGroup] reports
    [ErrGroupNotFound]; deleting an absent group is not a no-op but fails
    with object-not-exist, while reading it gives [ErrGroupNotFound]. *)
Theorem DeleteRuleGroup_GetRuleGroup :
  forall (b : Bucket) (t ns name : string),
    generateRuleHandle t ns name ∉ failing b ->
    (is_Some (objects b !! generateRuleHandle t ns name) ->
     exists b', DeleteRuleGroup b t ns name = inr b'
             /\ GetRuleGroup RuleGroupDesc proto_Unmarshal b' t ns name
                = inl ErrGroupNotFound)
    /\ (objects b !! generateRuleHandle t ns name = None ->
        DeleteRuleGroup b t ns name = inl (GCSErr ErrObjectNotExist)
        /\ GetRuleGroup RuleGroupDesc proto_Unmarshal b t ns name
           = inl ErrGroupNotFound).
Proof.
  intros b t ns name Hf. split.
  - intros [buf Hbuf]. unfold DeleteRuleGroup, DeleteObject.
    destruct (decide (generateRuleHandle t ns name ∈ failing b)); [contradiction |].
    rewrite Hbuf. eexists. split; [reflexivity |].
    unfold GetRuleGroup, getRuleGroup, NewReader. simpl.
    destruct (decide (generateRuleHandle t ns name ∈ failing b)); [contradiction |].
    rewrite lookup_delete_eq. reflexivity.
  - intros Hnone. unfold DeleteRuleGroup, DeleteObject, GetRuleGroup, getRuleGroup, NewReader.
    destruct (decide (generateRuleHandle t ns name ∈ failing b)); [contradiction |].
    rewrite Hnone. split; reflexivity.
Qed.
End RoundTrips.

Section AlertRoundTrips.
Variable AlertConfig : Type.
Variable AlertConfig_zero : AlertConfig.
Variable json_Unmarshal : bytes -> option AlertConfig.
Variable json_Marshal : AlertConfig -> bytes.
Variable Objects : string -> list string.

(** X7: a successful [SetAlertConfig] is read back by [GetAlertConfig]
    (when the JSON codec round-trips), and after [DeleteAlertConfig] the
    tenant reads as the zero config with a nil error. *)
Theorem AlertConfig_set_get_delete :
  forall (b : Bucket) (userID : string) (cfg cfg' : AlertConfig),
    (alertPrefix ++ userID)%string ∉ failing b ->
    json_Unmarshal (json_Marshal cfg) = Some cfg' ->
    exists b1, SetAlertConfig AlertConfig json_Marshal b userID cfg = inr b1
      /\ GetAlertConfig AlertConfig AlertConfig_zero json_Unmarshal b1 userID = (cfg', None)
      /\ exists b2, DeleteAlertConfig b1 userID = inr b2
         /\ GetAlertConfig AlertConfig AlertConfig_zero json_Unmarshal b2 userID
            = (AlertConfig_zero, None).
Proof.
  intros b userID cfg cfg' Hf Hrt.
  set (k := (alertPrefix ++ userID)%string) in *.
  unfold SetAlertConfig, WriteObject. fold k.
  destruct (decide (k ∈ failing b)); [contradiction |].
  eexists. split; [reflexivity |]. split.
  - unfold GetAlertConfig, getAlertConfig, NewReader. fold k. simpl.
    destruct (decide (k ∈ failing b)); [contradiction |].
    rewrite lookup_insert_eq, Hrt. reflexivity.
  - unfold DeleteAlertConfig, DeleteObject. fold k. simpl.
    destruct (decide (k ∈ failing b)); [contradiction |].
    rewrite lookup_insert_eq. eexists. split; [reflexivity |].
    unfold GetAlertConfig, getAlertConfig, NewReader. fold k. simpl.
    destruct (decide (k ∈ failing b)); [contradiction |].
    rewrite lookup_delete_eq. reflexivity.
Qed.
End AlertRoundTrips.


Lemma SetRuleGroup_frame_witness :
  GetRuleGroup string demo_unmarshal
    {| objects := <["rules/t1/ns/g2" := demo_marshal "g2"]> (objects demo_bucket);
       failing := ∅ |} "t1" "ns" "g1"
  = GetRuleGroup string demo_unmarshal demo_bucket "t1" "ns" "g1".
Proof.
  apply (SetRuleGroup_frame string (fun s => s) string (fun _ _ g => g)
           demo_marshal demo_unmarshal demo_bucket _ "t1" "ns" "g2" "t1" "ns" "g1");
    first [discriminate | reflexivity].
Defined.

Lemma DeleteRuleGroup_GetRuleGroup_witness :
  exists b', DeleteRuleGroup demo_bucket "t1" "ns" "g1" = inr b'
          /\ GetRuleGroup string demo_unmarshal b' "t1" "ns" "g1" = inl ErrGroupNotFound.
Proof.
  destruct (DeleteRuleGroup_GetRuleGroup string demo_unmarshal demo_bucket "t1" "ns" "g1")
    as [Hdel _]; [simpl; set_solver |].
  apply Hdel. vm_compute. eexists. reflexivity.
Defined.

Lemma AlertConfig_set_get_delete_witness :
  exists b1, SetAlertConfig (list (string * string)) demo_json_marshal demo_bucket "t9" [] = inr b1
    /\ GetAlertConfig (list (string * string)) [] demo_json b1 "t9" = ([], None)
    /\ exists b2, DeleteAlertConfig b1 "t9" = inr b2
       /\ GetAlertConfig (list (string * string)) [] demo_json b2 "t9" = ([], None).
Proof.
  apply (AlertConfig_set_get_delete (list (string * string)) [] demo_json demo_json_marshal
           demo_bucket "t9" [] []); [simpl; set_solver | reflexivity].
Defined.

(* ------------------------------------------------------------------ *)
(** ** Listing *)


Lemma listed_elem (b : Bucket) (p : string) (it : list string) (name : string) :
  listed b p it ->
  (In name it <-> HasPrefix name p = true /\ is_Some (objects b !! name)).
Proof.
  intros Hl. unfold listed in Hl. split.
  - intros Hin. apply (Permutation_in _ Hl) in Hin.
    apply filter_In in Hin as [Hin Hp]. split; [exact Hp |].
    apply in_map_iff in Hin as ([k v] & <- & Hkv).
    apply list_elem_of_In, elem_of_map_to_list in Hkv. simpl. eexists; exact Hkv.
  - intros [Hp [v Hv]]. apply (Permutation_in _ (Permutation_sym Hl)).
    apply filter_In. split; [| exact Hp].
    apply in_map_iff. exists (name, v). split; [reflexivity |].
    apply list_elem_of_In, elem_of_map_to_list. exact Hv.
Qed.

Section ListingProps.
Variable RuleGroupFmt : Type.
Variable RG_Name : RuleGroupFmt -> string.
Variable RuleGroupDesc : Type.
Variable ToProto : string -> string -> RuleGroupFmt -> RuleGroupDesc.
Variable proto_Marshal : RuleGroupDesc -> bytes.
Variable proto_Unmarshal : bytes -> option RuleGroupDesc.
Variable AlertConfig : Type.
Variable AlertConfig_zero : AlertConfig.
Variable json_Unmarshal : bytes -> option AlertConfig.
Variable Objects : string -> list string.

Lemma listAlertConfigs_loop_ok (b : Bucket) (it : list string)
    (acc : gmap string AlertConfig) :
  (forall name, In name it ->
     HasPrefix name alertPrefix = true
     /\ (getAlertConfig AlertConfig AlertConfig_zero json_Unmarshal b name).2 = None) ->
  exists m, listAlertConfigs_loop AlertConfig AlertConfig_zero json_Unmarshal b it acc = inr m
    /\ forall u,
         (In (alertPrefix ++ u)%string it ->
          m !! u = Some (getAlertConfig AlertConfig AlertConfig_zero json_Unmarshal b
                           (alertPrefix ++ u)%string).1)
         /\ (~ In (alertPrefix ++ u)%string it -> m !! u = acc !! u).
Proof.
  revert acc. induction it as [| name rest IH]; intros acc Hall.
  - exists acc. split; [reflexivity |]. intros u. split; [intros [] | reflexivity].
  - destruct (Hall name (or_introl eq_refl)) as [Hp Hok].
    cbn [listAlertConfigs_loop].
    destruct (getAlertConfig AlertConfig AlertConfig_zero json_Unmarshal b name)
      as [cfg err] eqn:Eg. simpl in Hok. subst err.
    destruct (IH (<[TrimPrefix name alertPrefix := cfg]> acc)) as (m & Hm & Hlk);
      [intros n Hn; apply Hall; right; exact Hn |].
    exists m. split; [exact Hm |]. intros u.
    destruct (Hlk u) as [Hin Hout].
    pose proof (HasPrefix_TrimPrefix name alertPrefix Hp) as Hname.
    split.
    + intros Hr'. destruct (in_dec string_dec (alertPrefix ++ u)%string rest) as [Hr | Hr];
        [apply Hin; exact Hr |].
      destruct Hr' as [Heq | Hr']; [| contradiction].
      rewrite Hout by exact Hr. rewrite <- Heq, Eg. simpl.
      rewrite Heq, TrimPrefix_app. apply lookup_insert_eq.
    + intros Hr'. rewrite Hout by (intros Hr; apply Hr'; right; exact Hr).
      rewrite lookup_insert_ne; [reflexivity |].
      intros Heq. apply Hr'. left. rewrite Hname, Heq. reflexivity.
Qed.

(** X8: when the bucket listing under "alerts/" is complete and every
    listed config is readable and decodes, [ListAlertConfigs] succeeds
    with a map holding, for each tenant, exactly the decoded object
    "alerts/<tenant>", and nothing for tenants without one. *)
Theorem ListAlertConfigs_contents :
  forall (b : Bucket),
    listed b alertPrefix (Objects alertPrefix) ->
    (forall (name : string) (buf : bytes),
        objects b !! name = Some buf -> HasPrefix name alertPrefix = true ->
        (name ∉ failing b) /\ is_Some (json_Unmarshal buf)) ->
    exists m, ListAlertConfigs AlertConfig AlertConfig_zero json_Unmarshal Objects b = inr m
      /\ forall u, m !! u = (objects b !! (alertPrefix ++ u)%string) ≫= json_Unmarshal.
Proof.
  intros b Hl Hok. unfold ListAlertConfigs.
  destruct (listAlertConfigs_loop_ok b (Objects alertPrefix) ∅) as (m & Hm & Hlk).
  { intros name Hin. apply (listed_elem _ _ _ name Hl) in Hin as [Hp [buf Hbuf]].
    split; [exact Hp |].
    destruct (Hok name buf Hbuf Hp) as [Hf [c Hc]].
    unfold getAlertConfig, NewReader.
    destruct (decide (name ∈ failing b)); [contradiction |].
    rewrite Hbuf, Hc. reflexivity. }
  exists m. split; [exact Hm |]. intros u. destruct (Hlk u) as [Hlk1 Hlk2].
  destruct (in_dec string_dec (alertPrefix ++ u)%string (Objects alertPrefix)) as [Hin | Hnin].
  - rewrite (Hlk1 Hin). pose proof Hin as Hin'.
    apply (listed_elem _ _ _ _ Hl) in Hin' as [Hp [buf Hbuf]].
    destruct (Hok _ buf Hbuf Hp) as [Hf [c Hc]].
    unfold getAlertConfig, NewReader.
    destruct (decide ((alertPrefix ++ u)%string ∈ failing b)); [contradiction |].
    rewrite Hbuf. simpl. rewrite Hc. reflexivity.
  - rewrite (Hlk2 Hnin).
    destruct (objects b !! (alertPrefix ++ u)%string) as [buf|] eqn:Ebuf;
      [| reflexivity].
    exfalso. apply Hnin. apply (listed_elem _ _ _ _ Hl). split;
      [apply HasPrefix_app | eexists; exact Ebuf].
Qed.

Lemma listAlertConfigs_loop_err (b : Bucket) (it : list string)
    (acc : gmap string AlertConfig) (name : string) (e : StoreErr) :
  In name it ->
  (getAlertConfig AlertConfig AlertConfig_zero json_Unmarshal b name).2 = Some e ->
  exists e', listAlertConfigs_loop AlertConfig AlertConfig_zero json_Unmarshal b it acc = inl e'.
Proof.
  revert acc. induction it as [| n rest IH]; intros acc Hin He; [destruct Hin |].
  simpl. destruct (getAlertConfig AlertConfig AlertConfig_zero json_Unmarshal b n)
    as [cfg [err|]] eqn:Eg; [eexists; reflexivity |].
  destruct Hin as [-> | Hin]; [rewrite Eg in He; discriminate |].
  apply IH; assumption.
Qed.

(** X9: one listed alert config that cannot be read or decoded makes
    [ListAlertConfigs] fail as a whole: no map is returned. *)
Theorem ListAlertConfigs_one_bad :
  forall (b : Bucket) (name : string) (e : StoreErr),
    In name (Objects alertPrefix) ->
    (getAlertConfig AlertConfig AlertConfig_zero json_Unmarshal b name).2 = Some e ->
    exists e', ListAlertConfigs AlertConfig AlertConfig_zero json_Unmarshal Objects b = inl e'.
Proof.
  intros b name e Hin He. unfold ListAlertConfigs.
  apply (listAlertConfigs_loop_err b _ ∅ name e Hin He).
Qed.
End ListingProps.

Section RuleListingProps.
Variable RuleGroupFmt : Type.
Variable RG_Name : RuleGroupFmt -> string.
Variable RuleGroupDesc : Type.
Variable ToProto : string -> string -> RuleGroupFmt -> RuleGroupDesc.
Variable proto_Marshal : RuleGroupDesc -> bytes.
Variable proto_Unmarshal : bytes -> option RuleGroupDesc.
Variable Objects : string -> list string.



End RuleListingProps.

Lemma ListAlertConfigs_contents_witness :
  exists m, ListAlertConfigs (list (string * string)) [] demo_json
              (demo_objects demo_bucket) demo_bucket = inr m
    /\ forall u, m !! u = (objects demo_bucket !! (alertPrefix ++ u)%string) ≫= demo_json.
Proof.
  apply (ListAlertConfigs_contents (list (string * string)) [] demo_json
           (demo_objects demo_bucket) demo_bucket).
  - unfold listed, demo_objects. reflexivity.
  - intros name buf Hbuf _. split; [unfold demo_bucket; cbn [failing]; set_solver |].
    unfold demo_bucket in Hbuf; cbn [objects] in Hbuf.
    lookup_cases Hbuf ltac:(eexists; reflexivity).
Defined.

Lemma ListAlertConfigs_one_bad_witness :
  exists e', ListAlertConfigs (list (string * string)) [] demo_json
               (demo_objects demo_bucket_bad) demo_bucket_bad = inl e'.
Proof.
  apply (ListAlertConfigs_one_bad (list (string * string)) [] demo_json
           (demo_objects demo_bucket_bad) demo_bucket_bad "alerts/t3" DecodeErr).
  - apply (proj2 (listed_elem demo_bucket_bad alertPrefix
                    (demo_objects demo_bucket_bad alertPrefix) "alerts/t3"
                    ltac:(unfold listed, demo_objects; reflexivity))).
    split; [reflexivity | eexists; reflexivity].
  - reflexivity.
Defined.


(* ------------------------------------------------------------------ *)
(** ** Construction *)


(** X12: whenever [NewRuler] returns an error, it has started no worker
    and no scheduler goroutine. *)
Theorem NewRuler_error_spawns_nothing :
  forall (NumWorkers : Z) (EnableSharding : bool)
         (buildNotifierConfig NewRuleStorage NewLifecycler ringNew : option error)
         (e : error),
    fst (NewRuler NumWorkers EnableSharding buildNotifierConfig NewRuleStorage
           NewLifecycler ringNew) = Err e ->
    snd (NewRuler NumWorkers EnableSharding buildNotifierConfig NewRuleStorage
           NewLifecycler ringNew) = [].
Proof.
  intros N s bnc nrs nl rn e. unfold NewRuler.
  destruct (Z.leb N 0); [reflexivity |].
  destruct bnc as [err|]; [reflexivity |].
  destruct s; [| discriminate].
  destruct nl as [err|]; [reflexivity |].
  destruct rn as [err|]; [reflexivity | discriminate].
Qed.

(** X13: with a positive worker count, a notifier config that builds, and
    (only when sharding is enabled) a lifecycler and ring that start,
    [NewRuler] succeeds whatever [NewRuleStorage] returned: the ruler has
    a lifecycler and a ring exactly when sharding is enabled, no
    notifiers, and [NumWorkers] workers numbered 0 .. NumWorkers-1 are
    started, followed by the scheduler. *)
Theorem NewRuler_success :
  forall (NumWorkers : Z) (EnableSharding : bool)
         (NewRuleStorage NewLifecycler ringNew : option error),
    0 < NumWorkers ->
    (EnableSharding = true -> NewLifecycler = None /\ ringNew = None) ->
    exists bt ws,
      NewRuler NumWorkers EnableSharding None NewRuleStorage NewLifecycler ringNew
        = (Ok bt, ws ++ [SpawnScheduler])
      /\ has_lifecycler bt = EnableSharding /\ has_ring bt = EnableSharding
      /\ built_notifiers bt = ∅
      /\ length ws = Z.to_nat NumWorkers
      /\ (forall sp, In sp ws -> exists i, sp = SpawnWorker i)
      /\ (forall i, In (SpawnWorker i) ws <-> 0 <= i < NumWorkers).
Proof.
  intros N s nrs nl rn HN Hsh.
  exists {| has_lifecycler := s; has_ring := s; built_notifiers := ∅ |},
    (map (fun i => SpawnWorker (Z.of_nat i)) (seq 0 (Z.to_nat N))).
  split.
  - unfold NewRuler. rewrite (proj2 (Z.leb_gt N 0) HN).
    destruct s; [destruct (Hsh eq_refl) as [-> ->] |]; reflexivity.
  - split; [reflexivity | split; [reflexivity | split; [reflexivity |]]].
    split; [rewrite length_map, length_seq; reflexivity |]. split.
    + intros sp Hsp. apply in_map_iff in Hsp as (i & <- & _). eexists; reflexivity.
    + intros i. rewrite in_map_iff. split.
      * intros (k & Hk & Hin). injection Hk as <-. apply in_seq in Hin. lia.
      * intros Hi. exists (Z.to_nat i). split; [f_equal; lia |]. apply in_seq. lia.
Qed.

(* ------------------------------------------------------------------ *)
(** ** Notifier bookkeeping *)

Lemma NoDup_snoc (l : list Manager) (x : Manager) :
  NoDup l -> ~ In x l -> NoDup (l ++ [x]).
Proof.
  intros Hnd Hx. apply NoDup_ListNoDup in Hnd. apply NoDup_ListNoDup.
  apply (Permutation_NoDup (Permutation_cons_append l x)).
  constructor; assumption.
Qed.

Lemma goc_wf (u : string) (ac : option error) (st : RulerState) :
  notifiers_wf st -> notifiers_wf (getOrCreateNotifier u ac st).2.
Proof.
  intros (Hnd & Hlt & Hin & Hinj). unfold getOrCreateNotifier.
  destruct (notifiers st !! u) as [n|] eqn:E; [repeat split; assumption |].
  assert (Hfresh : ~ In (heap_next st) (started_loops st))
    by (intros H; specialize (Hlt _ H); lia).
  assert (Hnd' : NoDup (started_loops st ++ [heap_next st]))
    by (apply NoDup_snoc; assumption).
  assert (Hlt' : forall m, In m (started_loops st ++ [heap_next st]) ->
                            (m < S (heap_next st))%nat).
  { intros m Hm. apply in_app_iff in Hm as [Hm | [<- | []]];
      [specialize (Hlt _ Hm); lia | lia]. }
  destruct ac as [err|]; simpl.
  - split; [exact Hnd' | split; [exact Hlt' | split]].
    + intros v n Hv. apply in_app_iff. left. exact (Hin v n Hv).
    + exact Hinj.
  - split; [exact Hnd' | split; [exact Hlt' | split]].
    + intros v n Hv. cbn [notifiers] in Hv.
      apply lookup_insert_Some in Hv as [[_ <-] | [_ Hv]].
      * apply in_app_iff. right. left. reflexivity.
      * apply in_app_iff. left. exact (Hin v n Hv).
    + intros u1 u2 n1 n2 H1 H2 Heq. cbn [notifiers] in H1, H2.
      apply lookup_insert_Some in H1 as [[<- <-] | [Hne1 H1]];
      apply lookup_insert_Some in H2 as [[<- <-] | [Hne2 H2]].
      * reflexivity.
      * exfalso. simpl in Heq. apply Hfresh. rewrite Heq. exact (Hin _ _ H2).
      * exfalso. simpl in Heq. apply Hfresh. rewrite <- Heq. exact (Hin _ _ H1).
      * exact (Hinj u1 u2 n1 n2 H1 H2 Heq).
Qed.

Lemma run_calls_preserves_wf (calls : list (string * option error)) (st : RulerState) :
  notifiers_wf st -> notifiers_wf (run_calls calls st).2.
Proof.
  revert st. induction calls as [| [u ac] rest IH]; intros st H; [exact H |].
  simpl. destruct (getOrCreateNotifier u ac st) as [res st1] eqn:E.
  destruct (run_calls rest st1) as [ress st2] eqn:E2. simpl.
  replace st2 with (run_calls rest st1).2 by (rewrite E2; reflexivity).
  apply IH. replace st1 with (getOrCreateNotifier u ac st).2 by (rewrite E; reflexivity).
  apply goc_wf. exact H.
Qed.

(** X14: every sequence of [getOrCreateNotifier] calls keeps the notifier
    bookkeeping well formed: each send loop is started once, every cached
    notifier's loop has been started, and no two tenants ever share a
    manager (so alerts of one tenant never go through another's). *)
Theorem run_calls_wf :
  forall (calls : list (string * option error)) (st : RulerState),
    notifiers_wf st -> notifiers_wf (run_calls calls st).2.
Proof. intros calls st. apply run_calls_preserves_wf. Qed.

Lemma Stop_NotifierStop_iff (r : Ruler) (iter : list (string * rulerNotifier))
    (m : Manager) :
  In (NotifierStop m) (Stop r iter) <-> exists kv, In kv iter /\ notifier kv.2 = m.
Proof.
  unfold Stop. rewrite in_app_iff, in_map_iff. split.
  - intros [(kv & Hkv & Hin) | H].
    + exists kv. split; [exact Hin |]. injection Hkv as <-. reflexivity.
    + exfalso. destruct (EnableSharding r); simpl in H; intuition discriminate.
  - intros (kv & Hin & <-). left. exists kv. split; [reflexivity | exact Hin].
Qed.


Lemma empty_state_wf : notifiers_wf empty_state.
Proof.
  unfold notifiers_wf, empty_state; cbn [started_loops notifiers heap_next].
  split; [constructor | split; [intros m [] | split]].
  - intros u n H. rewrite lookup_empty in H. discriminate.
  - intros u1 u2 n1 n2 H. rewrite lookup_empty in H. discriminate.
Qed.

Lemma NoDup_map_on {A B : Type} (f : A -> B) (l : list A) :
  List.NoDup l -> (forall x y, In x l -> In y l -> f x = f y -> x = y) ->
  List.NoDup (map f l).
Proof.
  induction l as [| a rest IH]; intros Hnd Hinj; simpl; constructor.
  - intros Hin. apply in_map_iff in Hin as (y & Hy & Hyl).
    apply NoDup_cons_iff in Hnd as [Ha _].
    assert (y = a) as -> by (apply Hinj; [right | left |]; auto).
    contradiction.
  - apply NoDup_cons_iff in Hnd as [_ Hnd]. apply IH; [exact Hnd |].
    intros x y Hx Hy. apply Hinj; right; assumption.
Qed.

(** X22: after any sequence of [getOrCreateNotifier] calls from the
    initial state, [Stop] never stops the same manager twice, and every
    manager it stops had its send loop started. *)
Theorem Stop_stops_each_manager_once :
  forall (calls : list (string * option error)) (r : Ruler)
         (iter : list (string * rulerNotifier)),
    iter ≡ₚ map_to_list (notifiers (run_calls calls empty_state).2) ->
    NoDup (List.filter is_NotifierStop (Stop r iter))
    /\ forall m, In (NotifierStop m) (Stop r iter) ->
                 In m (started_loops (run_calls calls empty_state).2).
Proof.
  intros calls r iter Hperm.
  destruct (run_calls_preserves_wf calls empty_state empty_state_wf)
    as (Hnd & Hlt & Hin & Hinj).
  set (st := (run_calls calls empty_state).2) in *.
  assert (Hlook : forall kv, In kv iter -> notifiers st !! kv.1 = Some kv.2).
  { intros [k n] Hkv. apply (Permutation_in _ Hperm) in Hkv.
    apply list_elem_of_In, elem_of_map_to_list in Hkv. exact Hkv. }
  split.
  - unfold Stop. rewrite List.filter_app, filter_NotifierStop_map.
    assert (Hrest : List.filter is_NotifierStop
              ([SchedulerStop] ++ [WorkersWait]
               ++ (if EnableSharding r then [LifecyclerShutdown; RingStop] else [])) = [])
      by (destruct (EnableSharding r); reflexivity).
    rewrite Hrest, app_nil_r. apply NoDup_ListNoDup. apply NoDup_map_on.
    + apply (Permutation_NoDup (Permutation_sym Hperm)).
      apply NoDup_ListNoDup. apply NoDup_map_to_list.
    + intros [k1 n1] [k2 n2] H1 H2 Heq. injection Heq as Heq.
      pose proof (Hlook _ H1) as L1. pose proof (Hlook _ H2) as L2. simpl in L1, L2.
      pose proof (Hinj k1 k2 n1 n2 L1 L2 Heq) as <-. congruence.
  - intros m Hm. apply Stop_NotifierStop_iff in Hm as (kv & Hkv & <-).
    exact (Hin _ _ (Hlook kv Hkv)).
Qed.

(* ------------------------------------------------------------------ *)
(** ** Group construction *)




(** X17: when loading a group's rules fails, [newGroup] returns that
    error, but the tenant's notifier has been created and cached anyway
    (if config application succeeds); the metrics map is not touched. *)
Theorem newGroup_rules_error_keeps_notifier :
  forall {Rule : Type} (url : string) (g : RuleGroupI Rule) (st : GroupState) (e : error),
    rg_Rules g = Err e ->
    exists st', newGroup url None g st = (Err e, st')
      /\ is_Some (notifiers (gs_ruler st') !! rg_User g)
      /\ userMetrics st' = userMetrics st /\ metrics_next st' = metrics_next st.
Proof.
  intros Rule url g st e He. unfold newGroup.
  destruct (getOrCreateNotifier (rg_User g) None (gs_ruler st)) as [nres rst] eqn:Eg.
  assert (Hok : exists m, nres = Ok m).
  { unfold getOrCreateNotifier in Eg.
    destruct (notifiers (gs_ruler st) !! rg_User g); simpl in Eg;
      injection Eg as <- _; eexists; reflexivity. }
  destruct Hok as [m ->]. rewrite He.
  eexists. split; [reflexivity |]. simpl.
  split; [eexists; apply (goc_ok_cached _ _ _ _ _ Eg) | split; reflexivity].
Qed.

(* ------------------------------------------------------------------ *)
(** ** Chunk client *)

Section ChunkProps.
Variable Chunk : Type.
Variable ExternalKey : Chunk -> string.
Variable Encode : Chunk -> error + bytes.
Variable Decode : Chunk -> bytes -> error + Chunk.

Lemma PutChunks_app_eq (b : Bucket) (c1 c2 : list Chunk) :
  PutChunks Chunk ExternalKey Encode b (c1 ++ c2)
  = match PutChunks Chunk ExternalKey Encode b c1 with
    | (b1, None) => PutChunks Chunk ExternalKey Encode b1 c2
    | res => res
    end.
Proof.
  revert b. induction c1 as [| c rest IH]; intros b; [reflexivity |].
  simpl. destruct (Encode c) as [err | buf]; [reflexivity |].
  destruct (WriteObject b (ExternalKey c) buf) as [err | b']; [reflexivity |].
  apply IH.
Qed.

(** X18: [PutChunks] over a concatenation writes the first part and, only
    if that succeeded, continues with the second part on the resulting
    bucket; in particular it stops at the first chunk that fails to
    encode, keeping every earlier write. *)
Theorem PutChunks_app :
  forall (b : Bucket) (c1 c2 : list Chunk),
    PutChunks Chunk ExternalKey Encode b (c1 ++ c2)
    = match PutChunks Chunk ExternalKey Encode b c1 with
      | (b1, None) => PutChunks Chunk ExternalKey Encode b1 c2
      | res => res
      end
    /\ forall (b1 : Bucket) (c : Chunk) (err : error) (rest : list Chunk),
         PutChunks Chunk ExternalKey Encode b c1 = (b1, None) ->
         Encode c = inl err ->
         PutChunks Chunk ExternalKey Encode b (c1 ++ c :: rest)
         = (b1, Some (ChunkEncodeErr err)).
Proof.
  intros b c1 c2. split; [apply PutChunks_app_eq |].
  intros b1 c err rest H1 He. rewrite PutChunks_app_eq, H1. simpl. rewrite He.
  reflexivity.
Qed.


End ChunkProps.

Section MissingObject.
Variable Chunk : Type.
Variable ExternalKey : Chunk -> string.
Variable Decode : Chunk -> bytes -> error + Chunk.
Variable RuleGroupDesc : Type.
Variable proto_Unmarshal : bytes -> option RuleGroupDesc.
Variable AlertConfig : Type.
Variable AlertConfig_zero : AlertConfig.
Variable json_Unmarshal : bytes -> option AlertConfig.

End MissingObject.

(* ------------------------------------------------------------------ *)
(** ** Compactor test helper *)

Lemma removeMetaFetcherLogs_In (input : list string) (l : string) :
  In l (removeMetaFetcherLogs input)
  <-> In l input /\ Contains l "block.MetaFetcher" = false.
Proof.
  induction input as [| x rest IH]; simpl; [tauto |].
  destruct (Contains x "block.MetaFetcher") eqn:Ex; simpl; rewrite IH.
  - split; [tauto |]. intros [[<- | H] Hl]; [congruence | tauto].
  - split; [intros [<- | H]; tauto |]. intros [[<- | H] Hl]; tauto.
Qed.

Lemma removeMetaFetcherLogs_app (a c : list string) :
  removeMetaFetcherLogs (a ++ c) = removeMetaFetcherLogs a ++ removeMetaFetcherLogs c.
Proof.
  induction a as [| x rest IH]; [reflexivity |]. simpl.
  destruct (Contains x "block.MetaFetcher"); simpl; rewrite IH; reflexivity.
Qed.

(** X21: [removeMetaFetcherLogs] keeps exactly the lines that do not
    contain "block.MetaFetcher", in their order: filtering twice is
    filtering once, it distributes over concatenation, and it never
    adds lines. *)
Theorem removeMetaFetcherLogs_spec :
  forall (input : list string),
    (forall l, In l (removeMetaFetcherLogs input)
               <-> In l input /\ Contains l "block.MetaFetcher" = false)
    /\ removeMetaFetcherLogs (removeMetaFetcherLogs input) = removeMetaFetcherLogs input
    /\ (forall rest, removeMetaFetcherLogs (input ++ rest)
                     = removeMetaFetcherLogs input ++ removeMetaFetcherLogs rest)
    /\ (length (removeMetaFetcherLogs input) <= length input)%nat.
Proof.
  intros input. split; [intros l; apply removeMetaFetcherLogs_In |]. split; [| split].
  - induction input as [| x rest IH]; [reflexivity |]. simpl.
    destruct (Contains x "block.MetaFetcher") eqn:Ex; simpl; [exact IH |].
    rewrite Ex. simpl. rewrite IH. reflexivity.
  - intros rest. apply removeMetaFetcherLogs_app.
  - induction input as [| x rest IH]; [reflexivity |]. simpl.
    destruct (Contains x "block.MetaFetcher"); simpl; lia.
Qed.

(* ------------------------------------------------------------------ *)
(** ** Witnesses of the construction, notifier, group and chunk properties *)


Lemma NewRuler_error_spawns_nothing_witness :
  fst (NewRuler 2 true None None (Some "lifecycler"%string) None) = Err "lifecycler"
  /\ snd (NewRuler 2 true None None (Some "lifecycler"%string) None) = [].
Proof.
  split; [reflexivity |].
  apply (NewRuler_error_spawns_nothing 2 true None None (Some "lifecycler"%string) None
           "lifecycler"). reflexivity.
Defined.

Lemma NewRuler_success_witness :
  exists bt ws, NewRuler 2 false None (Some "store"%string) (Some "lifecycler"%string) None
                  = (Ok bt, ws ++ [SpawnScheduler])
    /\ length ws = 2%nat.
Proof.
  destruct (NewRuler_success 2 false (Some "store"%string) (Some "lifecycler"%string) None
              ltac:(lia) ltac:(discriminate)) as (bt & ws & Hn & _ & _ & _ & Hlen & _).
  exists bt, ws. split; [exact Hn | exact Hlen].
Defined.

Lemma run_calls_wf_witness :
  notifiers_wf (run_calls [("t1", None); ("t2", Some "bad"); ("t1", None); ("t3", None)]
                  empty_state).2.
Proof.
  apply run_calls_wf. apply empty_state_wf.
Defined.



Lemma newGroup_rules_error_keeps_notifier_witness :
  exists st', newGroup "http://am" None (demo_group "t1" "g1" (Err "parse")) empty_group_state
                = (Err "parse", st')
    /\ is_Some (notifiers (gs_ruler st') !! "t1")
    /\ userMetrics st' = userMetrics empty_group_state
    /\ metrics_next st' = metrics_next empty_group_state.
Proof.
  apply (newGroup_rules_error_keeps_notifier "http://am"
           (demo_group "t1" "g1" (Err "parse")) empty_group_state "parse").
  reflexivity.
Defined.

Lemma PutChunks_app_witness :
  exists b1, PutChunks string (fun c => c) demo_encode empty_bucket ["a"%string] = (b1, None)
    /\ PutChunks string (fun c => c) demo_encode empty_bucket (app ["a"%string] ("bad"%string :: ["c"%string]))
       = (b1, Some (ChunkEncodeErr "encode")).
Proof.
  eexists. split; [reflexivity |].
  apply (proj2 (PutChunks_app string (fun c => c) demo_encode empty_bucket ["a"%string] []));
    reflexivity.
Defined.



Lemma Stop_stops_each_manager_once_witness :
  NoDup (List.filter is_NotifierStop
           (Stop (test_ruler "10.0.0.1:9095")
              (map_to_list (notifiers (run_calls [("t1", None); ("t2", Some "bad"%string);
                                                  ("t3", None)] empty_state).2)))).
Proof.
  apply (Stop_stops_each_manager_once [("t1", None); ("t2", Some "bad"%string); ("t3", None)]
           (test_ruler "10.0.0.1:9095")). reflexivity.
Defined.

(* ------------------------------------------------------------------ *)
(** ** Alert forwarding over many evaluations, and ring checks *)

Section SendAlertsSeq.
Variable TableLinkForExpression : string -> string.

(** X23: over any sequence of rule evaluations notifying through the
    closure returned by [sendAlerts n externalURL], the send log only
    grows: the earlier log is kept, every new batch goes to [n], one
    batch is sent per evaluation with a non-empty alert list, and no batch
    holds more alerts than its evaluation produced. *)
Theorem sendAlerts_sequence :
  forall (n : Manager) (externalURL : string) (calls : list (string * list Alert))
         (log : SendLog),
    exists new,
      fold_left (fun lg c => sendAlerts TableLinkForExpression n externalURL c.1 c.2 lg)
        calls log = log ++ new
      /\ (forall p, In p new -> p.1 = n)
      /\ length new = length (List.filter (fun c => Nat.ltb 0 (length c.2)) calls)
      /\ Forall2 (fun c p => (length p.2 <= length c.2)%nat)
           (List.filter (fun c => Nat.ltb 0 (length c.2)) calls) new.
Proof.
  intros n url calls. induction calls as [| [expr alerts] rest IH]; intros log.
  - exists []. rewrite app_nil_r. split; [reflexivity | split; [intros ? [] |]].
    split; [reflexivity | constructor].
  - simpl. unfold sendAlerts at 2.
    assert (Hle : (length (build_res TableLinkForExpression url expr alerts)
                   <= length alerts)%nat).
    { rewrite build_res_filter_map, length_map. apply filter_length_le. }
    destruct (Nat.ltb 0 (length alerts)) eqn:Hlen.
    + destruct (IH (Send n (build_res TableLinkForExpression url expr alerts) log))
        as (new & Hfold & Hto & Hcnt & Hsz).
      exists ((n, build_res TableLinkForExpression url expr alerts) :: new).
      split; [rewrite Hfold; unfold Send; rewrite <- app_assoc; reflexivity |].
      split; [intros p [<- | Hp]; [reflexivity | exact (Hto p Hp)] |].
      split; [simpl; rewrite Hcnt; reflexivity |].
      constructor; [exact Hle | exact Hsz].
    + destruct (IH log) as (new & Hfold & Hto & Hcnt & Hsz).
      exists new. split; [exact Hfold | split; [exact Hto | split; assumption]].
Qed.
End SendAlertsSeq.

